(** * Keystore application authentication: manifest parser, file hashing and
      manifest signature verification

    Shallow embedding of
      security/keystore/appauth/manifest_parser.c
      security/keystore/appauth/file_hash_verify.c
      security/keystore/appauth/sign_verify.c
    and the properties of the manifest reader, the file digest comparison
    and the certificate/signature check that are stated about them. *)

From Stdlib Require Import ZArith List Bool Lia Strings.Byte.
From Stdlib Require Import Strings.String.
Import ListNotations.
Open Scope Z_scope.

(** ** Memory model

    The manifest blob is one memory object, a finite sequence of bytes.  A
    pointer into it is an offset from its first byte; [NULL] is [None].  The C
    code never receives the size of the blob, so nothing in it can test an
    address against that size: a load at an address outside the object is
    undefined behaviour in C and is reported here as [Fault]. *)

Module Mem.

Definition memory := list byte.

Definition ptr := option Z.
Definition NULL : ptr := None.

Inductive fault : Type :=
| OutOfBounds (addr : Z)   (* load outside the blob object *)
| NullDeref.               (* store through a null pointer *)

Inductive result (A : Type) : Type :=
| Ok (a : A)
| Fault (f : fault).
Arguments Ok {A} a.
Arguments Fault {A} f.

Definition bind {A B : Type} (r : result A) (k : A -> result B) : result B :=
  match r with
  | Ok a => k a
  | Fault f => Fault f
  end.

Definition u8 (b : byte) : Z := Z.of_N (Byte.to_N b).

Definition load8 (M : memory) (a : Z) : result Z :=
  if a <? 0 then Fault (OutOfBounds a)
  else match nth_error M (Z.to_nat a) with
       | Some b => Ok (u8 b)
       | None => Fault (OutOfBounds a)
       end.

(* [n] consecutive bytes starting at [a], as memcmp reads them. *)
Fixpoint load_bytes (M : memory) (a : Z) (n : nat) : result (list byte) :=
  match n with
  | O => Ok []
  | S n' =>
      if a <? 0 then Fault (OutOfBounds a)
      else match nth_error M (Z.to_nat a) with
           | Some b =>
               bind (load_bytes M (a + 1) n') (fun rest => Ok (b :: rest))
           | None => Fault (OutOfBounds a)
           end
  end.

(* Multi-byte fields of the packed structures are little-endian (the driver
   is built for x86). *)
Definition load16 (M : memory) (a : Z) : result Z :=
  bind (load8 M a) (fun b0 =>
  bind (load8 M (a + 1)) (fun b1 =>
  Ok (b0 + 256 * b1))).

Definition load32 (M : memory) (a : Z) : result Z :=
  bind (load16 M a) (fun w0 =>
  bind (load16 M (a + 2)) (fun w1 =>
  Ok (w0 + 65536 * w1))).

(* A little-endian unsigned field of [w] bytes. *)
Fixpoint load_le (M : memory) (a : Z) (w : nat) : result Z :=
  match w with
  | O => Ok 0
  | S w' =>
      bind (load8 M a) (fun b =>
      bind (load_le M (a + 1) w') (fun rest =>
      Ok (b + 256 * rest)))
  end.

(* strlen: number of bytes before the first NUL; running off the end of the
   object without meeting one is a fault. *)
Fixpoint strlen_bytes (l : list byte) : option Z :=
  match l with
  | [] => None
  | b :: t =>
      if Byte.eqb b x00 then Some 0
      else option_map Z.succ (strlen_bytes t)
  end.

Definition strlen (M : memory) (a : Z) : result Z :=
  if a <? 0 then Fault (OutOfBounds a)
  else match strlen_bytes (skipn (Z.to_nat a) M) with
       | Some n => Ok n
       | None => Fault (OutOfBounds (Z.max a (Z.of_nat (List.length M))))
       end.

(* Unsigned wrap-around of the C integer types used by the parser. *)
Definition wrap16 (z : Z) : Z := z mod 2 ^ 16.
Definition wrap32 (z : Z) : Z := z mod 2 ^ 32.
Definition wrap64 (z : Z) : Z := z mod 2 ^ 64.
(* Conversion of an unsigned 32-bit value to int. *)
Definition to_int (z : Z) : Z :=
  let u := wrap32 z in if u <? 2 ^ 31 then u else u - 2 ^ 32.

(* Bytes for concrete blobs. *)
Definition byte_of_Z (z : Z) : byte :=
  match Byte.of_N (Z.to_N (z mod 256)) with
  | Some b => b
  | None => x00
  end.
Definition bytes (l : list Z) : memory := map byte_of_Z l.

End Mem.

Notation "x <- c ;; k" := (Mem.bind c (fun x => k))
  (at level 61, c at next level, right associativity).

(** ** manifest_parser.c *)

Module ManifestParser.
Import Mem.

(** Constants and structure layout of manifest_parser.h, which the parser
    includes: the chunk type tags and the packed [struct mf_app_data]
    (offsets of [num_files], [app_name_len] and the flexible [app_name]
    member, and the width in bytes of [num_files]).  They are parameters of
    the development. *)
Record manifest_parser_h : Type := {
  TYPE_MANIFEST_NAME : Z;
  TYPE_MANIFEST_DATA : Z;
  TYPE_MANIFEST_PUBLIC_KEY : Z;
  TYPE_MANIFEST_CERTIFICATE : Z;
  TYPE_MANIFEST_SIGNATURE : Z;
  num_files_off : Z;
  num_files_width : nat;
  app_name_len_off : Z;
  app_name_off : Z
}.

(** Modelled from the spec: [struct mf_files_ctx] is declared in
    manifest_parser.h; its three fields are the ones the parser assigns, with
    the widths the data model gives them ([num_files_left] unsigned 32 bits,
    [bytes_left] a size_t of 64 bits, [next_file] a pointer into the blob). *)
Record mf_files_ctx : Type := {
  num_files_left : Z;
  bytes_left : Z;
  next_file : ptr
}.

(* What mf_get_next_file returns: NULL, ERR_PTR(err) or the address of the
   file name inside the blob. *)
Inductive char_ptr : Type :=
| PNull
| PErr (err : Z)
| PAddr (addr : Z).

Definition ERR_PTR (err : Z) : char_ptr := PErr err.

(* The three output arguments of mf_get_next_file.  Each is a pointer to a
   caller's variable: [None] is a null pointer, [Some v] a variable holding
   [v]. *)
Record out_args : Type := {
  digest_algo_id : option Z;    (* uint8_t *digest_algo_id *)
  digest : option ptr;          (* uint8_t **digest *)
  size : option Z               (* uint32_t *size *)
}.

Definition MAX_CHUNKS : nat := 10.

Definition digest_len : list Z :=
  [ 20 (* sha1 *); 28 (* sha224 *); 32 (* sha256 *); 48 (* sha384 *);
    64 (* sha512 *) ].

(* sizeof(digest_len): five elements of one byte. *)
Definition sizeof_digest_len : Z := Z.of_nat (List.length digest_len).

(* struct mf_envelope { uint8_t version; uint16_t len; uint8_t data[]; } *)
Definition env_version (env : Z) : Z := env.
Definition env_len (env : Z) : Z := env + 1.
Definition env_data (env : Z) : Z := env + 3.

(* struct mf_chunk { uint8_t type; uint16_t len; uint8_t data[]; } *)
Definition chunk_type_of (chunk : Z) : Z := chunk.
Definition chunk_len_of (chunk : Z) : Z := chunk + 1.
Definition chunk_data_of (chunk : Z) : Z := chunk + 3.

(* The for loop of mf_get_chunk.  [remaining] is MAX_CHUNKS - i and [pos] the
   uint16_t offset of the chunk under inspection; [len] is env->len, which the
   loop reads again at every test from the constant blob. *)
Fixpoint mf_get_chunk_loop (M : memory) (env chunk_type len : Z)
         (remaining : nat) (pos : Z) : result ptr :=
  match remaining with
  | O => Ok NULL
  | S remaining' =>
      if pos <? len then
        let chunk := env_data env + pos in
        ty <- load8 M (chunk_type_of chunk) ;;
        clen <- load16 M (chunk_len_of chunk) ;;
        if ty =? chunk_type then
          if pos + clen + 3 <=? len + 1 then Ok (Some chunk) else Ok NULL
        else
          mf_get_chunk_loop M env chunk_type len remaining'
                            (wrap16 (pos + clen + 3))
      else Ok NULL
  end.

Definition mf_get_chunk (M : memory) (mf : ptr) (chunk_type : Z)
  : result ptr :=
  match mf with
  | Some env =>
      len <- load16 M (env_len env) ;;
      mf_get_chunk_loop M env chunk_type len MAX_CHUNKS 0
  | None => Ok NULL
  end.

(* [len] is the size_t the caller passes by address; the second component of
   the result is that variable after the call. *)
Definition mf_get_chunk_data (M : memory) (mf : ptr) (chunk_type : Z)
           (len : option Z) : result (ptr * option Z) :=
  chunk <- mf_get_chunk M mf chunk_type ;;
  match len with
  | Some _ =>
      match chunk with
      | Some c =>
          l <- load16 M (chunk_len_of c) ;;
          Ok (Some (chunk_data_of c), Some l)
      | None => Ok (NULL, Some 0)
      end
  | None => Ok (NULL, None)
  end.

(* Value of a local variable that was passed by address. *)
Definition deref (cell : option Z) : Z :=
  match cell with
  | Some v => v
  | None => 0
  end.

Definition mf_get_version (M : memory) (mf : ptr) : result Z :=
  match mf with
  | Some env => load8 M (env_version env)
  | None => Ok 0
  end.

Section WithHeader.

Variable H : manifest_parser_h.
Variable EFAULT : Z.

Definition mf_get_name (M : memory) (mf : ptr) : result ptr :=
  r <- mf_get_chunk_data M mf (TYPE_MANIFEST_NAME H) (Some 0) ;;
  let len := deref (snd r) in
  match fst r with
  | Some data =>
      if len <? 256 then
        n <- strlen M data ;;
        if n + 1 =? len then Ok (Some data) else Ok NULL
      else Ok NULL
  | None => Ok NULL
  end.

Definition mf_get_app_data (M : memory) (mf : ptr) : result ptr :=
  r <- mf_get_chunk_data M mf (TYPE_MANIFEST_DATA H) (Some 0) ;;
  match fst r with
  | Some data =>
      n <- strlen M (data + app_name_off H) ;;
      app_name_len <- load8 M (data + app_name_len_off H) ;;
      if n + 1 =? app_name_len then Ok (Some data) else Ok NULL
  | None => Ok NULL
  end.

(* Returns the int result and the iterator after the call ([None] when the
   caller passed a null ctx). *)
Definition mf_init_file_list_ctx (M : memory) (mf : ptr)
           (ctx : option mf_files_ctx) : result (Z * option mf_files_ctx) :=
  match ctx with
  | Some c =>
      r <- mf_get_chunk_data M mf (TYPE_MANIFEST_DATA H) (Some 0) ;;
      let len := deref (snd r) in
      match fst r with
      | Some data =>
          num_files <- load_le M (data + num_files_off H)
                               (num_files_width H) ;;
          app_name_len <- load8 M (data + app_name_len_off H) ;;
          let c' := {| num_files_left := wrap32 num_files;
                       bytes_left := wrap64 (len - 8 - app_name_len);
                       next_file :=
                         Some (data + app_name_off H + app_name_len) |} in
          Ok (to_int (num_files_left c'), Some c')
      | None => Ok (0, Some c)
      end
  | None => Ok (0, None)
  end.

Definition is_null {A : Type} (p : option A) : bool :=
  match p with
  | Some _ => false
  | None => true
  end.

(* Store through an output pointer. *)
Definition store {A : Type} (p : option A) (v : A) : result (option A) :=
  match p with
  | Some _ => Ok (Some v)
  | None => Fault NullDeref
  end.

(* The blob argument [mf] is not used by the C function.  The result is the
   returned pointer, the iterator after the call and the output variables
   after the call. *)
Definition mf_get_next_file (M : memory) (mf : ptr)
           (ctx : option mf_files_ctx) (out : out_args)
  : result (char_ptr * option mf_files_ctx * out_args) :=
  match ctx with
  | Some c =>
      match next_file c with
      | Some nf =>
          if (0 <? num_files_left c) && (0 <? bytes_left c)
             && negb (is_null (digest_algo_id out))
             && negb (is_null (digest out))
          then
            filenamelen <- load8 M nf ;;
            let filename := nf + 1 in
            n <- strlen M filename ;;
            if n + 1 =? filenamelen then
              sz <- load32 M (nf + filenamelen + 1) ;;
              size' <- store (size out) sz ;;
              algo <- load8 M (nf + filenamelen + 5) ;;
              let out' := {| digest_algo_id := Some algo;
                             digest := Some (Some (nf + filenamelen + 6));
                             size := size' |} in
              if sizeof_digest_len <=? algo then Ok (PNull, Some c, out')
              else
                let entry_size :=
                  1 + filenamelen + 5 + nth (Z.to_nat algo) digest_len 0 in
                let c' := {| num_files_left := num_files_left c - 1;
                             bytes_left := wrap64 (bytes_left c - entry_size);
                             next_file := Some (nf + entry_size) |} in
                Ok (PAddr filename, Some c', out')
            else Ok (ERR_PTR (- EFAULT), Some c, out)
          else Ok (PNull, Some c, out)
      | None => Ok (PNull, Some c, out)
      end
  | None => Ok (PNull, None, out)
  end.

Definition mf_get_data (M : memory) (mf : ptr) (len : option Z) :=
  mf_get_chunk_data M mf (TYPE_MANIFEST_DATA H) len.

Definition mf_get_public_key (M : memory) (mf : ptr) (len : option Z) :=
  mf_get_chunk_data M mf (TYPE_MANIFEST_PUBLIC_KEY H) len.

Definition mf_get_certificate (M : memory) (mf : ptr) (len : option Z) :=
  mf_get_chunk_data M mf (TYPE_MANIFEST_CERTIFICATE H) len.

Definition mf_get_signature (M : memory) (mf : ptr) (len : option Z) :=
  mf_get_chunk_data M mf (TYPE_MANIFEST_SIGNATURE H) len.

End WithHeader.

End ManifestParser.

(** ** Kernel services and header constants used by the two other files

    The hash, X.509, public-key and file services of the kernel are outside
    the three files; they are taken as an arbitrary provider.  The numeric
    values of the error numbers, of [enum hash_algo], of [enum APP_AUTH_ERROR]
    (app_auth.h) and of the manifest digest ids are parameters as well. *)

Module Kernel.

(* A kernel pointer that may carry an error number (ERR_PTR). *)
Inductive kptr (A : Type) : Type :=
| KNull
| KErr (err : Z)
| KPtr (a : A).
Arguments KNull {A}.
Arguments KErr {A} err.
Arguments KPtr {A} a.

Definition IS_ERR {A : Type} (p : kptr A) : bool :=
  match p with
  | KErr _ => true
  | _ => false
  end.

Definition PTR_ERR {A : Type} (p : kptr A) : Z :=
  match p with
  | KErr err => err
  | _ => 0
  end.

(* The object a pointer that is not an error pointer refers to, if any. *)
Definition target {A : Type} (p : kptr A) : option A :=
  match p with
  | KPtr a => Some a
  | _ => None
  end.

Record consts : Type := {
  (* errno *)
  EFAULT : Z;
  ENOMEM : Z;
  EBADF : Z;
  EINVAL : Z;
  (* enum hash_algo *)
  HASH_ALGO_MD5 : Z;
  HASH_ALGO_SHA1 : Z;
  HASH_ALGO_SHA224 : Z;
  HASH_ALGO_SHA256 : Z;
  HASH_ALGO_SHA384 : Z;
  HASH_ALGO_SHA512 : Z;
  HASH_ALGO__LAST : Z;
  (* digest ids of the manifest format *)
  DIGEST_ALGO_MD5 : Z;
  DIGEST_ALGO_SHA1 : Z;
  DIGEST_ALGO_SHA224 : Z;
  DIGEST_ALGO_SHA384 : Z;
  DIGEST_ALGO_SHA512 : Z;
  (* enum APP_AUTH_ERROR *)
  CERTIFICATE_FAILURE : Z;
  CERTIFICATE_EXPIRED : Z;
  SIGNATURE_FAILURE : Z;
  HASH_FAILURE : Z;
  (* module-wide defaults *)
  manifest_default_hash_algo : Z;
  default_sig_hash_algo : Z;
  (* file modes and page size *)
  FMODE_READ : Z;
  PAGE_SIZE : Z;
  ATTESTATION_KEY_USAGE_BIT : Z
}.

(* The types of the kernel objects the code holds pointers to. *)
Record types : Type := {
  crypto_shash : Type;          (* struct crypto_shash, a transform *)
  shash_desc : Type;            (* running state of one hash computation *)
  inode : Type;
  path : Type;                  (* a file name given to filp_open *)
  public_key : Type;
  asymmetric_key_id : Type
}.

(* struct file: the fields the code touches. *)
Record file (T : types) : Type := {
  f_inode : inode T;
  f_mode : Z
}.
Arguments f_inode {T} f.
Arguments f_mode {T} f.

(* struct x509_certificate: the fields the code touches; [sig_auth_ids_1] is
   cert->sig->auth_ids[1]. *)
Record x509_certificate (T : types) : Type := {
  pub : option (public_key T);
  sig_auth_ids_1 : asymmetric_key_id T;
  valid_from : Z;
  valid_to : Z
}.
Arguments pub {T} x.
Arguments sig_auth_ids_1 {T} x.
Arguments valid_from {T} x.
Arguments valid_to {T} x.

(* struct public_key_signature: the fields the code sets. *)
Record public_key_signature : Type := {
  pkey_algo : String.string;
  hash_algo : String.string;
  pks_digest : list byte;
  digest_size : Z;
  s : list byte;
  s_size : Z
}.

Record api (T : types) : Type := {
  (* hash *)
  hash_algo_name : Z -> String.string;
  hash_digest_size : Z -> Z;
  crypto_alloc_shash : String.string -> kptr (crypto_shash T);
  crypto_shash_digestsize : crypto_shash T -> Z;
  crypto_shash_init : crypto_shash T -> Z * shash_desc T;
  crypto_shash_update : shash_desc T -> list byte -> Z * shash_desc T;
  crypto_shash_final : shash_desc T -> Z * list byte;
  (* files *)
  filp_open : path T -> kptr (file T);
  i_size_read : inode T -> Z;
  kernel_read : file T -> Z (* count *) -> Z (* offset *) -> Z * list byte;
  kzalloc_succeeds : bool;
  (* certificates and signatures *)
  x509_cert_parse : list byte -> Z -> option (x509_certificate T);
  verify_x509_cert_against_manifest_keyring :
    asymmetric_key_id T -> Z -> Z;
  public_key_verify_signature :
    public_key T -> public_key_signature -> Z;
  (* tv_sec of getnstimeofday64 *)
  getnstimeofday64 : Z
}.
Arguments hash_algo_name {T} _.
Arguments hash_digest_size {T} _.
Arguments crypto_alloc_shash {T} _.
Arguments crypto_shash_digestsize {T} _.
Arguments crypto_shash_init {T} _.
Arguments crypto_shash_update {T} _.
Arguments crypto_shash_final {T} _.
Arguments filp_open {T} _.
Arguments i_size_read {T} _.
Arguments kernel_read {T} _.
Arguments kzalloc_succeeds {T} _.
Arguments x509_cert_parse {T} _.
Arguments verify_x509_cert_against_manifest_keyring {T} _.
Arguments public_key_verify_signature {T} _.
Arguments getnstimeofday64 {T} _.

(* struct appauth_digest *)
Record appauth_digest : Type := {
  algo : Z;
  len : Z;
  digest : list byte
}.

End Kernel.

(** ** file_hash_verify.c *)

Module FileHashVerify.
Import Mem Kernel.

Section WithKernel.

Variable C : consts.
Variable T : types.
Variable K : api T.

Definition appauth_alloc_tfm (algo : Z) : kptr (crypto_shash T) :=
  let algo :=
    if (algo <? 0) || (HASH_ALGO__LAST C <=? algo)
    then manifest_default_hash_algo C
    else algo in
  crypto_alloc_shash K (hash_algo_name K algo).

(* Returns the result of the read and the bytes placed in the buffer.  The
   ssize_t of kernel_read, at most [count] or a negative error number, fits
   the int that is returned. *)
Definition appauth_kernel_read (file : file T) (offset : Z) (count : Z)
  : Z * list byte :=
  if Z.land (f_mode file) (FMODE_READ C) =? 0 then (- EBADF C, [])
  else kernel_read K file count offset.

(* The while loop of appauth_calc_file_hash_tfm.  Every turn that continues
   adds a positive number of bytes to [offset], so [i_size] turns are
   enough. *)
Fixpoint read_loop (fuel : nat) (file : file T) (i_size offset rc : Z)
         (shash : shash_desc T) : Z * shash_desc T :=
  match fuel with
  | O => (rc, shash)
  | S fuel' =>
      if offset <? i_size then
        let '(file_buf_len, file_buf) :=
          appauth_kernel_read file offset (PAGE_SIZE C) in
        if file_buf_len <? 0 then (file_buf_len, shash)
        else if file_buf_len =? 0 then (rc, shash)
        else
          let '(rc', shash') :=
            crypto_shash_update K shash
              (firstn (Z.to_nat file_buf_len) file_buf) in
          if rc' =? 0
          then read_loop fuel' file i_size (offset + file_buf_len) rc' shash'
          else (rc', shash')
      else (rc, shash)
  end.

Definition set_f_mode (f : file T) (m : Z) : file T :=
  {| f_inode := f_inode f; f_mode := m |}.

(* The code after label [out]. *)
Definition calc_file_hash_out (rc : Z) (shash : shash_desc T)
           (hash : appauth_digest) : Z * appauth_digest :=
  if rc =? 0 then
    let '(rc', d) := crypto_shash_final K shash in
    let hash' := {| algo := algo hash; len := len hash; digest := d |} in
    if rc' =? 0 then (rc', hash') else (- HASH_FAILURE C, hash')
  else (- HASH_FAILURE C, hash).

(* The result is the int returned, the file and the digest record after the
   call. *)
Definition appauth_calc_file_hash_tfm (file : option (file T))
           (hash : option appauth_digest) (tfm : option (crypto_shash T))
  : Z * option (Kernel.file T) * option appauth_digest :=
  match file, hash with
  | Some f, Some h =>
      match tfm with
      | None => (- EFAULT C, file, hash)
      | Some t =>
          let h1 := {| algo := algo h;
                       len := crypto_shash_digestsize K t;
                       digest := digest h |} in
          let '(rc, shash) := crypto_shash_init K t in
          if negb (rc =? 0) then (- HASH_FAILURE C, file, Some h1)
          else
            let i_size := i_size_read K (f_inode f) in
            if i_size =? 0 then
              let '(r, h2) := calc_file_hash_out rc shash h1 in
              (r, file, Some h2)
            else if negb (kzalloc_succeeds K) then (- ENOMEM C, file, Some h1)
            else
              let read := Z.land (f_mode f) (FMODE_READ C) =? 0 in
              let f1 :=
                if read
                then set_f_mode f (Z.lor (f_mode f) (FMODE_READ C))
                else f in
              let '(rc', shash') :=
                read_loop (Z.to_nat i_size) f1 i_size 0 rc shash in
              let f2 :=
                if read
                then set_f_mode f1 (Z.ldiff (f_mode f1) (FMODE_READ C))
                else f1 in
              let '(r, h2) := calc_file_hash_out rc' shash' h1 in
              (r, Some f2, Some h2)
      end
  | _, _ => (- EFAULT C, file, hash)
  end.

Definition appauth_calc_file_shash (file : option (file T))
           (hash : option appauth_digest)
  : Z * option (Kernel.file T) * option appauth_digest :=
  match file, hash with
  | Some _, Some h =>
      let tfm := appauth_alloc_tfm (algo h) in
      if IS_ERR tfm then (- HASH_FAILURE C, file, hash)
      else appauth_calc_file_hash_tfm file hash (target tfm)
  | _, _ => (- EFAULT C, file, hash)
  end.

(* mutex_lock/mutex_unlock on the file position lock bracket the call; they
   do not change any value of the model. *)
Definition process_file (file : file T) (hash : appauth_digest)
  : Z * appauth_digest :=
  let '(result, _, hash') :=
    appauth_calc_file_shash (Some file) (Some hash) in
  (result, match hash' with Some h => h | None => hash end).

Definition convert_hash_id (digest_algo_id : Z) : Z :=
  if negb (DIGEST_ALGO_MD5 C =? 0) then HASH_ALGO_MD5 C
  else if negb (DIGEST_ALGO_SHA1 C =? 0) then HASH_ALGO_SHA1 C
  else if negb (DIGEST_ALGO_SHA224 C =? 0) then HASH_ALGO_SHA224 C
  else if negb (DIGEST_ALGO_SHA384 C =? 0) then HASH_ALGO_SHA384 C
  else if negb (DIGEST_ALGO_SHA512 C =? 0) then HASH_ALGO_SHA512 C
  else HASH_ALGO_SHA1 C.

Definition bytes_eqb (a b : list byte) : bool :=
  if list_eq_dec Byte.byte_eq_dec a b then true else false.

(* [digest] points into the manifest blob [M]; [hash] is the local
   struct appauth_digest, whose [len] and [digest] are written before they
   are read. *)
Definition compute_file_hash (M : memory) (filename : path T) (digest : ptr)
           (digest_algo_id : Z) : result Z :=
  let file := filp_open K filename in
  if IS_ERR file then Ok (- EBADF C)
  else
  match target file with
  | None => Fault NullDeref     (* process_file locks file->f_pos_lock *)
  | Some file =>
      let hash := {| algo := convert_hash_id digest_algo_id;
                     len := 0; digest := [] |} in
      let '(ret, hash) := process_file file hash in
      if ret <? 0 then Ok ret
      else
        let n := Z.to_nat (hash_digest_size K (algo hash)) in
        match digest with
        | Some d =>
            recorded <- load_bytes M d n ;;
            if bytes_eqb (firstn n (Kernel.digest hash)) recorded
            then Ok 0
            else Ok (- HASH_FAILURE C)
        | None =>
            if (0 <? Z.of_nat n)%Z then Fault NullDeref
            else Ok 0
        end
  end.

End WithKernel.

End FileHashVerify.

(** ** sign_verify.c *)

Module SignVerify.
Import Mem Kernel.

(* The steps verify_manifest goes through, in the order it calls them. *)
Inductive step : Type :=
| Step_x509_cert_parse
| Step_verify_x509_cert_against_manifest_keyring
| Step_verify_cert_validity
| Step_calc_shash
| Step_verify_manifest_signature
| Step_x509_free_certificate.

Section WithKernel.

Variable C : consts.
Variable T : types.
Variable K : api T.

(* [sig] may be a null pointer. *)
Definition verify_manifest_signature (key : public_key T)
           (hash : appauth_digest) (sig : option (list byte)) (sig_len : Z)
  : Z :=
  let ret := - ENOMEM C in
  if algo hash =? HASH_ALGO_SHA1 C then
    match sig with
    | Some sg =>
        public_key_verify_signature K key
          {| pkey_algo := "rsa"%string; hash_algo := "sha1"%string;
             pks_digest := digest hash; digest_size := len hash;
             s := sg; s_size := sig_len |}
    | None => ret
    end
  else if algo hash =? HASH_ALGO_SHA256 C then
    match sig with
    | Some sg =>
        public_key_verify_signature K key
          {| pkey_algo := "rsa"%string; hash_algo := "sha256"%string;
             pks_digest := digest hash; digest_size := len hash;
             s := sg; s_size := sig_len |}
    | None => ret
    end
  else - EINVAL C.

(* The result is the int returned and the digest record after the call. *)
Definition calc_hash_tfm (hash : option appauth_digest)
           (tfm : option (crypto_shash T)) (data : option (list byte))
           (len : Z) : Z * option appauth_digest :=
  match hash, data with
  | Some h, Some d =>
      match tfm with
      | None => (- EFAULT C, hash)
      | Some t =>
          let h1 := {| algo := algo h;
                       Kernel.len := crypto_shash_digestsize K t;
                       digest := digest h |} in
          let '(rc, shash) := crypto_shash_init K t in
          if negb (rc =? 0) then (rc, Some h1)
          else
            let '(rc, shash) :=
              crypto_shash_update K shash (firstn (Z.to_nat len) d) in
            if rc =? 0 then
              let '(rc, dg) := crypto_shash_final K shash in
              (rc, Some {| algo := algo h1; Kernel.len := Kernel.len h1;
                           digest := dg |})
            else (rc, Some h1)
      end
  | _, _ => (- EFAULT C, hash)
  end.

Definition calc_shash (hash : option appauth_digest)
           (data : option (list byte)) (len : Z)
  : Z * option appauth_digest :=
  match hash, data with
  | Some h, Some _ =>
      let tfm := FileHashVerify.appauth_alloc_tfm C T K (algo h) in
      if IS_ERR tfm then (PTR_ERR tfm, hash)
      else calc_hash_tfm hash (target tfm) data len
  | _, _ => (- EFAULT C, hash)
  end.

Definition verify_cert_validity (cert : x509_certificate T) : Z :=
  let tv_sec := getnstimeofday64 K in
  if (tv_sec <? valid_from cert) || (valid_to cert <? tv_sec)
  then - EFAULT C
  else 0.

(* The result is the int returned and the steps taken, first to last. *)
Definition verify_manifest (sig : option (list byte)) (cert : list byte)
           (data : option (list byte)) (sig_len cert_len data_len : Z)
  : Z * list step :=
  match x509_cert_parse K cert cert_len with
  | None => (- CERTIFICATE_FAILURE C, [Step_x509_cert_parse])
  | Some x509cert =>
      match pub x509cert with
      | None =>
          (- CERTIFICATE_FAILURE C,
           [Step_x509_cert_parse; Step_x509_free_certificate])
      | Some key =>
          let x509cert_akid_skid := sig_auth_ids_1 x509cert in
          let res :=
            verify_x509_cert_against_manifest_keyring K x509cert_akid_skid
              (ATTESTATION_KEY_USAGE_BIT C) in
          if negb (res =? 0) then
            (- CERTIFICATE_FAILURE C,
             [Step_x509_cert_parse;
              Step_verify_x509_cert_against_manifest_keyring;
              Step_x509_free_certificate])
          else
            let res := verify_cert_validity x509cert in
            if negb (res =? 0) then
              (- CERTIFICATE_EXPIRED C,
               [Step_x509_cert_parse;
                Step_verify_x509_cert_against_manifest_keyring;
                Step_verify_cert_validity;
                Step_x509_free_certificate])
            else
              let hash := {| algo := default_sig_hash_algo C;
                             Kernel.len := 0; digest := [] |} in
              let '(rc, hash') := calc_shash (Some hash) data data_len in
              let hash := match hash' with Some h => h | None => hash end in
              if rc <? 0 then
                (- SIGNATURE_FAILURE C,
                 [Step_x509_cert_parse;
                  Step_verify_x509_cert_against_manifest_keyring;
                  Step_verify_cert_validity;
                  Step_calc_shash;
                  Step_x509_free_certificate])
              else if negb (verify_manifest_signature key hash sig sig_len
                            =? 0) then
                (- SIGNATURE_FAILURE C,
                 [Step_x509_cert_parse;
                  Step_verify_x509_cert_against_manifest_keyring;
                  Step_verify_cert_validity;
                  Step_calc_shash;
                  Step_verify_manifest_signature;
                  Step_x509_free_certificate])
              else
                (res,
                 [Step_x509_cert_parse;
                  Step_verify_x509_cert_against_manifest_keyring;
                  Step_verify_cert_validity;
                  Step_calc_shash;
                  Step_verify_manifest_signature;
                  Step_x509_free_certificate])
  end
  end.

End WithKernel.

End SignVerify.

(** ** Vocabulary of the statements about the manifest format *)

Module ManifestFormat.
Import Mem ManifestParser.

(* The blob holds the bytes [bs] from address [a] on. *)
Definition holds (M : memory) (a : Z) (bs : list byte) : Prop :=
  0 <= a /\ firstn (List.length bs) (skipn (Z.to_nat a) M) = bs.

(* The same, in the form the loads are computed from. *)
Definition suffix_at (M : memory) (a : Z) (bs : list byte) : Prop :=
  0 <= a /\ exists rest, skipn (Z.to_nat a) M = bs ++ rest.

(* The caller passed three valid addresses for the outputs. *)
Definition out_ready (out : out_args) : Prop :=
  digest_algo_id out <> None /\ digest out <> None /\ size out <> None.

(* One entry of the file list as the format describes it:
   name_len, name with its NUL, size, digest id, digest. *)
Record file_entry : Type := {
  fe_name : list byte;        (* without the terminating NUL *)
  fe_size : Z;
  fe_algo : Z;
  fe_digest : list byte
}.

Definition le32 (z : Z) : list byte :=
  [byte_of_Z z; byte_of_Z (z / 2 ^ 8); byte_of_Z (z / 2 ^ 16);
   byte_of_Z (z / 2 ^ 24)].

Definition name_len (e : file_entry) : Z :=
  Z.of_nat (List.length (fe_name e)) + 1.

Definition encode_entry (e : file_entry) : list byte :=
  byte_of_Z (name_len e)
    :: fe_name e ++ x00 :: le32 (fe_size e)
    ++ byte_of_Z (fe_algo e) :: fe_digest e.

Definition encode_entries (es : list file_entry) : list byte :=
  List.concat (map encode_entry es).

(* entry_size = 1 + name_len + 4 + 1 + digest_len(algo) *)
Definition entry_size (e : file_entry) : Z :=
  1 + name_len e + 4 + 1 + nth (Z.to_nat (fe_algo e)) digest_len 0.

Definition entry_ok (e : file_entry) : Prop :=
  Forall (fun b => b <> x00) (fe_name e)
  /\ name_len e <= 255
  /\ 0 <= fe_algo e < sizeof_digest_len
  /\ Z.of_nat (List.length (fe_digest e))
     = nth (Z.to_nat (fe_algo e)) digest_len 0.

(* A well-formed app-data record of [len] bytes at address [data]: an
   8-byte header, the NUL-terminated application name of [app_name_len]
   bytes, and the file entries [es], one after the other, filling the
   record. *)
Record well_formed_app_data (H : manifest_parser_h) (M : memory)
       (data len : Z) (es : list file_entry) : Prop := {
  wf_header : app_name_off H = 8;
  wf_num_files :
    load_le M (data + num_files_off H) (num_files_width H)
    = Ok (Z.of_nat (List.length es));
  wf_app_name :
    exists app_name_len,
      load8 M (data + app_name_len_off H) = Ok app_name_len
      /\ strlen M (data + app_name_off H) = Ok (app_name_len - 1)
      /\ len = app_name_off H + app_name_len
               + Z.of_nat (List.length (encode_entries es))
      /\ holds M (data + app_name_off H + app_name_len)
               (encode_entries es);
  wf_entries : Forall entry_ok es
}.

(* [n] successive calls of mf_get_next_file on the same iterator and output
   variables; the pointers returned, first call first. *)
Fixpoint mf_get_next_file_n (EFAULT : Z) (M : memory) (mf : ptr) (n : nat)
         (ctx : option mf_files_ctx) (out : out_args)
  : result (list char_ptr * option mf_files_ctx * out_args) :=
  match n with
  | O => Ok ([], ctx, out)
  | S n' =>
      r <- mf_get_next_file EFAULT M mf ctx out ;;
      let '(p, ctx', out') := r in
      r' <- mf_get_next_file_n EFAULT M mf n' ctx' out' ;;
      let '(ps, ctx'', out'') := r' in
      Ok (p :: ps, ctx'', out'')
  end.

Definition is_filename (p : char_ptr) : Prop :=
  match p with
  | PAddr _ => True
  | _ => False
  end.

(* The guard of mf_get_next_file on a non-null iterator. *)
Definition may_advance (c : mf_files_ctx) (out : out_args) : bool :=
  (0 <? num_files_left c) && (0 <? bytes_left c)
  && negb (is_null (next_file c))
  && negb (is_null (digest_algo_id out))
  && negb (is_null (digest out)).

End ManifestFormat.

(** ** Concrete blobs and iterator states *)

Module Examples.
Import Mem ManifestParser ManifestFormat.

Definition EFAULT : Z := 14.

(* Output variables of a caller that passes three valid addresses. *)
Definition out0 : out_args :=
  {| digest_algo_id := Some 0; digest := Some NULL; size := Some 0 |}.

(* An iterator that was zeroed by its owner. *)
Definition zero_ctx : mf_files_ctx :=
  {| num_files_left := 0; bytes_left := 0; next_file := NULL |}.

(* Envelope of version 1 declaring 3 bytes of chunks; its only chunk, of
   type 7, declares one byte of payload.  The blob ends with the chunk
   header. *)
Definition overrun_blob : memory := bytes [1; 3; 0; 7; 1; 0].

(* File entry "a" (name_len 2), size 100, digest id 0 (sha1, 20 bytes), cut
   after the third byte of its digest; the iterator has these 11 bytes
   left. *)
Definition partial_entry_blob : memory :=
  bytes [2; 97; 0; 100; 0; 0; 0; 0; 1; 2; 3].
Definition partial_entry_ctx : mf_files_ctx :=
  {| num_files_left := 1; bytes_left := 11; next_file := Some 0 |}.

(* File entry "a", size 100, digest id 5, which no row of digest_len
   describes; the iterator has one file and the 8 bytes left. *)
Definition bad_algo_blob : memory := bytes [2; 97; 0; 100; 0; 0; 0; 5].
Definition bad_algo_ctx : mf_files_ctx :=
  {| num_files_left := 1; bytes_left := 8; next_file := Some 0 |}.

(* Two entries "a" and "b": the first with digest id 9, the second a sha1
   entry; the iterator has two files and 56 bytes left. *)
Definition bad_first_blob : memory :=
  bytes ([2; 97; 0; 100; 0; 0; 0; 9]
         ++ repeat 0 20
         ++ [2; 98; 0; 7; 0; 0; 0; 0] ++ repeat 1 20).
Definition bad_first_ctx : mf_files_ctx :=
  {| num_files_left := 2; bytes_left := 56; next_file := Some 0 |}.

(* File entry whose name "ab" is followed by its NUL one byte later than
   name_len 2 says. *)
Definition bad_name_blob : memory :=
  bytes [2; 97; 98; 0; 100; 0; 0; 0; 0].
Definition bad_name_ctx : mf_files_ctx :=
  {| num_files_left := 1; bytes_left := 9; next_file := Some 0 |}.

(* A header with the five chunk tags in the order the parser lists their
   accessors and an app-data record whose first 8 bytes hold num_files (16
   bits, at 0) and app_name_len (at 7), the name starting at 8. *)
Definition header : manifest_parser_h :=
  {| TYPE_MANIFEST_NAME := 0;
     TYPE_MANIFEST_DATA := 1;
     TYPE_MANIFEST_PUBLIC_KEY := 2;
     TYPE_MANIFEST_CERTIFICATE := 3;
     TYPE_MANIFEST_SIGNATURE := 4;
     num_files_off := 0;
     num_files_width := 2;
     app_name_len_off := 7;
     app_name_off := 8 |}.

(* Two file entries: "a" with a sha1 digest, "bc" with a sha256 digest. *)
Definition two_files : list file_entry :=
  [ {| fe_name := bytes [97]; fe_size := 100; fe_algo := 0;
       fe_digest := bytes (repeat 17 20) |};
    {| fe_name := bytes [98; 99]; fe_size := 7; fe_algo := 2;
       fe_digest := bytes (repeat 34 32) |} ].

(* A manifest of version 1 whose DATA chunk of 23 bytes announces one file
   and ends in the middle of that entry's digest. *)
Definition partial_manifest : memory :=
  bytes [1; 26; 0]
  ++ bytes [1; 23; 0]
  ++ bytes [1; 0; 0; 0; 0; 0; 0; 4]
  ++ bytes [97; 112; 112; 0]
  ++ partial_entry_blob.

(* A manifest of version 1 with a NAME chunk "app" and a DATA chunk of 81
   bytes: header, application name "app" and the two entries. *)
Definition two_files_blob : memory :=
  bytes [1; 91; 0]
  ++ bytes [0; 4; 0; 97; 112; 112; 0]
  ++ bytes [1; 81; 0]
  ++ bytes [2; 0; 0; 0; 0; 0; 0; 4]
  ++ bytes [97; 112; 112; 0]
  ++ encode_entries two_files.

End Examples.

(** ** A small kernel to run the code on *)

Module KernelExamples.
Import Mem Kernel.

(* Values of Linux for the error numbers, enum hash_algo, FMODE_READ and a
   4 KiB page; SHA-1 as the manifest default and SHA-256 for signatures. *)
Definition linux : consts :=
  {| EFAULT := 14; ENOMEM := 12; EBADF := 9; EINVAL := 22;
     HASH_ALGO_MD5 := 1; HASH_ALGO_SHA1 := 2; HASH_ALGO_SHA224 := 7;
     HASH_ALGO_SHA256 := 4; HASH_ALGO_SHA384 := 5; HASH_ALGO_SHA512 := 6;
     HASH_ALGO__LAST := 18;
     DIGEST_ALGO_MD5 := 0; DIGEST_ALGO_SHA1 := 1; DIGEST_ALGO_SHA224 := 2;
     DIGEST_ALGO_SHA384 := 4; DIGEST_ALGO_SHA512 := 5;
     CERTIFICATE_FAILURE := 2; CERTIFICATE_EXPIRED := 3;
     SIGNATURE_FAILURE := 5; HASH_FAILURE := 8;
     manifest_default_hash_algo := 2; default_sig_hash_algo := 4;
     FMODE_READ := 1; PAGE_SIZE := 4096;
     ATTESTATION_KEY_USAGE_BIT := 47 |}.

(* A transform is the name it was allocated for, a running hash the bytes
   fed so far, an inode and a path the content of the file. *)
Definition toy_types : types :=
  {| crypto_shash := String.string;
     shash_desc := String.string * list byte;
     inode := list byte;
     path := list byte;
     public_key := unit;
     asymmetric_key_id := unit |}.

Definition toy_hash_algo_name (a : Z) : String.string :=
  if a =? 1 then "md5"%string
  else if a =? 2 then "sha1"%string
  else if a =? 4 then "sha256"%string
  else if a =? 5 then "sha384"%string
  else if a =? 6 then "sha512"%string
  else if a =? 7 then "sha224"%string
  else "other"%string.

Definition toy_hash_digest_size (a : Z) : Z :=
  if a =? 1 then 16
  else if a =? 2 then 20
  else if a =? 4 then 32
  else if a =? 5 then 48
  else if a =? 6 then 64
  else if a =? 7 then 28
  else 0.

(* The certificate every blob parses to: valid from second 100 to second
   200. *)
Definition toy_cert : x509_certificate toy_types :=
  Build_x509_certificate toy_types (Some tt) tt 100 200.

(* A provider that accepts every signature and every key identifier, whose
   digest is the first 20 bytes of the input padded with zeros, and whose
   clock shows [now]. *)
Definition toy (now : Z) : api toy_types :=
  Build_api toy_types
    (* hash_algo_name *) toy_hash_algo_name
    (* hash_digest_size *) toy_hash_digest_size
    (* crypto_alloc_shash *) (fun name => KPtr name)
    (* crypto_shash_digestsize *) (fun _ => 20)
    (* crypto_shash_init *) (fun t => (0, (t, [])))
    (* crypto_shash_update *) (fun d bs => (0, (fst d, snd d ++ bs)))
    (* crypto_shash_final *)
    (fun d => (0, firstn 20 (snd d ++ repeat x00 20)))
    (* filp_open *) (fun p => KPtr (Build_file toy_types p 1))
    (* i_size_read *) (fun i => Z.of_nat (List.length i))
    (* kernel_read *)
    (fun f count offset =>
       let chunk :=
         firstn (Z.to_nat count) (skipn (Z.to_nat offset) (f_inode f)) in
       (Z.of_nat (List.length chunk), chunk))
    (* kzalloc_succeeds *) true
    (* x509_cert_parse *) (fun _ _ => Some toy_cert)
    (* verify_x509_cert_against_manifest_keyring *) (fun _ _ => 0)
    (* public_key_verify_signature *) (fun _ _ => 0)
    (* getnstimeofday64 *) now.

End KernelExamples.

(** ** Vocabulary of the statements about the envelope *)

Module EnvelopeFormat.
Import Mem ManifestParser ManifestFormat.

(* A chunk as the format describes it: type, 16-bit length, payload. *)
Record chunk : Type := {
  ch_type : Z;
  ch_payload : list byte
}.

Definition le16 (z : Z) : list byte := [byte_of_Z z; byte_of_Z (z / 2 ^ 8)].

Definition payload_len (c : chunk) : Z :=
  Z.of_nat (List.length (ch_payload c)).

Definition encode_chunk (c : chunk) : list byte :=
  byte_of_Z (ch_type c) :: le16 (payload_len c) ++ ch_payload c.

Definition encode_chunks (cs : list chunk) : list byte :=
  List.concat (map encode_chunk cs).

(* version, length of the chunk area, chunks packed one after the other *)
Definition encode_envelope (version : Z) (cs : list chunk) : list byte :=
  byte_of_Z version
    :: le16 (Z.of_nat (List.length (encode_chunks cs))) ++ encode_chunks cs.

Definition chunk_ok (c : chunk) : Prop :=
  0 <= ch_type c < 256 /\ payload_len c < 65536.

Definition envelope_ok (cs : list chunk) : Prop :=
  Forall chunk_ok cs /\ Z.of_nat (List.length (encode_chunks cs)) < 65536.

(* The first chunk of type [t] among the first [n] chunks of [cs], with its
   offset in the chunk area; [off] is the offset of the head of [cs]. *)
Fixpoint find_chunk (t : Z) (n : nat) (off : Z) (cs : list chunk)
  : option (Z * chunk) :=
  match n, cs with
  | S n', c :: cs' =>
      if ch_type c =? t then Some (off, c)
      else find_chunk t n' (off + 3 + payload_len c) cs'
  | _, _ => None
  end.

(* Number of file names among the pointers returned by successive calls. *)
Fixpoint count_names (ps : list char_ptr) : Z :=
  match ps with
  | [] => 0
  | PAddr _ :: ps' => 1 + count_names ps'
  | _ :: ps' => count_names ps'
  end.

(* A manifest of version 1 with a NAME chunk "app" and a DATA chunk holding
   a record with the two entries of [Examples.two_files]. *)
Definition name_and_data : list chunk :=
  [ {| ch_type := 0; ch_payload := bytes [97; 112; 112; 0] |};
    {| ch_type := 1;
       ch_payload :=
         bytes [2; 0; 0; 0; 0; 0; 0; 4] ++ bytes [97; 112; 112; 0]
         ++ encode_entries Examples.two_files |} ].

(* Ten empty chunks of type 0 followed by a chunk of type 7. *)
Definition eleven_chunks : list chunk :=
  repeat {| ch_type := 0; ch_payload := [] |} 10
  ++ [ {| ch_type := 7; ch_payload := bytes [1; 2; 3] |} ].

(* A manifest of version 1 whose DATA chunk stops after the 8 bytes of the
   record header, which announce one file and a name of 4 bytes. *)
Definition short_data : list chunk :=
  [ {| ch_type := 1; ch_payload := bytes [1; 0; 0; 0; 0; 0; 0; 4] |} ].

End EnvelopeFormat.

(** ** Vocabulary of the statements about the file list *)

Module IteratorFormat.
Import Mem ManifestParser ManifestFormat.

(* [n] successive calls of mf_get_next_file on the same iterator and output
   variables: for every call, first call first, the pointer returned and the
   output variables after the call; then the iterator after the last
   call. *)
Fixpoint mf_get_next_file_calls (EFAULT : Z) (M : memory) (mf : ptr)
         (n : nat) (ctx : option mf_files_ctx) (out : out_args)
  : result (list (char_ptr * out_args) * option mf_files_ctx) :=
  match n with
  | O => Ok ([], ctx)
  | S n' =>
      r <- mf_get_next_file EFAULT M mf ctx out ;;
      let '(p, ctx', out') := r in
      r' <- mf_get_next_file_calls EFAULT M mf n' ctx' out' ;;
      Ok ((p, out') :: fst r', snd r')
  end.

(* What the format says a call has to hand out for the entry [e] stored at
   address [a]: the address of its name, its digest id, the address of its
   digest and its size. *)
Definition entry_view (a : Z) (e : file_entry) : char_ptr * out_args :=
  (PAddr (a + 1),
   {| digest_algo_id := Some (fe_algo e);
      digest := Some (Some (a + name_len e + 6));
      size := Some (fe_size e mod 2 ^ 32) |}).

(* The same for entries stored one after the other from [a] on. *)
Fixpoint entry_views (a : Z) (es : list file_entry)
  : list (char_ptr * out_args) :=
  match es with
  | [] => []
  | e :: es' => entry_view a e :: entry_views (a + entry_size e) es'
  end.

(* At the addresses of the views the blob holds the name of each entry with
   its NUL, and its digest. *)
Fixpoint views_hold (M : memory) (a : Z) (es : list file_entry) : Prop :=
  match es with
  | [] => True
  | e :: es' =>
      holds M (a + 1) (fe_name e ++ [x00])
      /\ holds M (a + name_len e + 6) (fe_digest e)
      /\ views_hold M (a + entry_size e) es'
  end.

End IteratorFormat.

(** ** Vocabulary of the statements about file digests *)

Module DigestFormat.
Import Mem Kernel.

(* The content of a file cut into pieces of [p] bytes, the last one shorter
   when the length is not a multiple of [p]; [fuel] bounds the number of
   pieces. *)
Fixpoint pages_fuel (fuel p : nat) (l : list byte) : list (list byte) :=
  match fuel with
  | O => []
  | S fuel' =>
      match l with
      | [] => []
      | _ => firstn p l :: pages_fuel fuel' p (skipn p l)
      end
  end.

Definition pages (p : nat) (l : list byte) : list (list byte) :=
  pages_fuel (List.length l) p l.

(* The running hash after the pieces [ps] were fed in order. *)
Definition feed {T : types} (K : api T) (d : shash_desc T)
           (ps : list (list byte)) : shash_desc T :=
  fold_left (fun d p => snd (crypto_shash_update K d p)) ps d.

(* The values compute_file_hash and the functions below it can return. *)
Definition hash_result (C : consts) (r : Z) : Prop :=
  r = 0 \/ r = - EFAULT C \/ r = - ENOMEM C \/ r = - HASH_FAILURE C.

End DigestFormat.

(** ** Vocabulary of the statements about verify_manifest *)

Module TrustFormat.
Import Mem Kernel SignVerify.

(* The digest record verify_manifest fills for the signed data, with the
   value calc_shash returned. *)
Definition manifest_digest (C : consts) (T : types) (K : api T)
           (data : option (list byte)) (data_len : Z) : Z * appauth_digest :=
  let hash := {| algo := default_sig_hash_algo C; len := 0; digest := [] |} in
  let r := calc_shash C T K (Some hash) data data_len in
  (fst r, match snd r with Some h => h | None => hash end).

(* The values verify_manifest can return. *)
Definition trust_result (C : consts) (r : Z) : Prop :=
  r = 0 \/ r = - CERTIFICATE_FAILURE C \/ r = - CERTIFICATE_EXPIRED C
  \/ r = - SIGNATURE_FAILURE C.

(* All six steps, in order. *)
Definition all_steps : list step :=
  [Step_x509_cert_parse;
   Step_verify_x509_cert_against_manifest_keyring;
   Step_verify_cert_validity;
   Step_calc_shash;
   Step_verify_manifest_signature;
   Step_x509_free_certificate].

(* The provider [K] with another answer of the keyring check. *)
Definition with_keyring {T : types} (K : api T)
           (answer : asymmetric_key_id T -> Z -> Z) : api T :=
  Build_api T
    (hash_algo_name K) (hash_digest_size K) (crypto_alloc_shash K)
    (crypto_shash_digestsize K) (crypto_shash_init K)
    (crypto_shash_update K) (crypto_shash_final K)
    (filp_open K) (i_size_read K) (kernel_read K) (kzalloc_succeeds K)
    (x509_cert_parse K) answer (public_key_verify_signature K)
    (getnstimeofday64 K).

End TrustFormat.

(** ** client.c *)

Module Client.
Import Mem Kernel.

Definition KERNEL_CLIENTS_ID : string := "+(!$(%@#%$$)*"%string.

(** Constants client.c takes from the kernel headers, from app_auth.h and
    from the configuration, beyond those of [Kernel.consts]. *)
Record client_consts : Type := {
  PATH_MAX : Z;
  NAME_MAX : Z;
  EKEYREJECTED : Z;
  EKEYEXPIRED : Z;
  ENOENT : Z;
  EFBIG : Z;
  MALFORMED_MANIFEST : Z;
  CAPS_FAILURE : Z;
  EXE_NOT_FOUND : Z;
  FILE_TOO_BIG : Z;
  CONFIG_APPLICATION_AUTH : bool;
  CONFIG_APPLICATION_AUTH_MANIFEST_ROOT : string
}.

(** What the function obtains from the rest of the kernel: the memory
    manager of the current task and its executable ([None] when the task has
    no mm, [Some None] when the mm has no exe_file), d_path, the two
    allocations, verify_manifest_file (manifest_verify.c) and
    keystore_sha256_block. *)
Record client_env : Type := {
  exe : Type;
  get_task_mm : option (option exe);
  d_path : exe -> Z -> kptr string;
  kmalloc_buf_succeeds : bool;
  kmalloc_mbuf_succeeds : bool;
  verify_manifest_file : string -> Z -> Z -> Z;
  keystore_sha256_block : string -> Z -> list byte
}.

Section WithEnv.

Variable C : consts.
Variable CC : client_consts.
Variable E : client_env.

Definition get_current_process_path (buflen : Z) : kptr string :=
  match get_task_mm E with
  | None => KNull
  | Some exe_file =>
      match exe_file with
      | Some e => d_path E e buflen
      | None => KNull
      end
  end.

(* strcpy(mbuf, root); strcat(mbuf, "/"); strcat(mbuf, f_path);
   strcat(mbuf, ".manifest") *)
Definition manifest_path (f_path : string) : string :=
  ((CONFIG_APPLICATION_AUTH_MANIFEST_ROOT CC ++ "/") ++ f_path)
    ++ ".manifest".

Definition mrootlen : Z :=
  PATH_MAX CC + NAME_MAX CC
  + Z.of_nat (String.length (CONFIG_APPLICATION_AUTH_MANIFEST_ROOT CC)) + 10.

(* switch (-res) of keystore_calc_clientid *)
Definition map_verify_error (res : Z) : Z :=
  let v := - res in
  if v =? MALFORMED_MANIFEST CC then - EINVAL C
  else if v =? CERTIFICATE_FAILURE C then - EKEYREJECTED CC
  else if v =? CERTIFICATE_EXPIRED C then - EKEYEXPIRED CC
  else if v =? CAPS_FAILURE CC then - EKEYREJECTED CC
  else if v =? SIGNATURE_FAILURE C then - EKEYREJECTED CC
  else if v =? EXE_NOT_FOUND CC then - ENOENT CC
  else if v =? FILE_TOO_BIG CC then - EFBIG CC
  else if v =? HASH_FAILURE C then - EKEYREJECTED CC
  else - EFAULT C.

(* memset(client_id, 0, size) followed by keystore_sha256_block writing at
   most [size] bytes, both in place: [old] are the bytes from client_id on
   before the call; the first [size] of them are replaced by the hash, cut
   or followed by zeros, and the bytes behind them stay as they are.  The
   code does not know the size of the caller's object: when [old] is shorter
   than [size] the call writes past it, and the result shows all [size]
   bytes written. *)
Definition write_client_id (old : list byte) (f_path : string)
           (client_id_size : Z) : list byte :=
  let n := Z.to_nat client_id_size in
  let h := firstn n (keystore_sha256_block E f_path client_id_size) in
  (h ++ repeat x00 (n - List.length h)) ++ skipn n old.

(* [client_id] is the caller's buffer ([None] for a null pointer); the
   result is the int returned and the buffer after the call. *)
Definition keystore_calc_clientid (client_id : option (list byte))
           (client_id_size : Z) (timeout caps : Z)
  : Z * option (list byte) :=
  match client_id with
  | None => (- EINVAL C, client_id)
  | Some old =>
      if negb (kmalloc_buf_succeeds E) then (- ENOMEM C, client_id)
      else if CONFIG_APPLICATION_AUTH CC && negb (kmalloc_mbuf_succeeds E)
      then (0, client_id)                        (* goto out_buf, res = 0 *)
      else
        let f_path := get_current_process_path (PATH_MAX CC + NAME_MAX CC) in
        if IS_ERR f_path then (- EFAULT C, client_id)
        else
          let f_path :=
            match target f_path with
            | Some p => p
            | None => KERNEL_CLIENTS_ID
            end in
          let res :=
            if CONFIG_APPLICATION_AUTH CC
            then verify_manifest_file E (manifest_path f_path) timeout caps
            else 0 in
          if negb (res =? 0) then (map_verify_error res, client_id)
          else (res, Some (write_client_id old f_path client_id_size))
  end.

End WithEnv.

(* The limits and error numbers of Linux, values for the remaining members
   of enum APP_AUTH_ERROR distinct from those of [KernelExamples.linux], and
   application authentication configured under /etc/manifests. *)
Definition linux_client : client_consts :=
  {| PATH_MAX := 4096; NAME_MAX := 255;
     EKEYREJECTED := 129; EKEYEXPIRED := 127; ENOENT := 2; EFBIG := 27;
     MALFORMED_MANIFEST := 1; CAPS_FAILURE := 4; EXE_NOT_FOUND := 6;
     FILE_TOO_BIG := 7;
     CONFIG_APPLICATION_AUTH := true;
     CONFIG_APPLICATION_AUTH_MANIFEST_ROOT := "/etc/manifests"%string |}.

(* The values keystore_calc_clientid can return when it fails. *)
Definition client_error (C : consts) (CC : client_consts) (r : Z) : Prop :=
  r = - EINVAL C \/ r = - ENOMEM C \/ r = - EFAULT C
  \/ r = - EKEYREJECTED CC \/ r = - EKEYEXPIRED CC \/ r = - ENOENT CC
  \/ r = - EFBIG CC.

(* A task running /bin/app whose manifest check answers [verdict]; the
   client id is 32 bytes of value 7. *)
Definition toy_env (verdict : Z) : client_env :=
  {| exe := unit;
     get_task_mm := Some (Some tt);
     d_path := fun _ _ => KPtr "/bin/app"%string;
     kmalloc_buf_succeeds := true;
     kmalloc_mbuf_succeeds := true;
     verify_manifest_file := fun _ _ _ => verdict;
     keystore_sha256_block := fun _ _ => repeat x07 32 |}.

End Client.

(** * Properties of the manifest parser *)

Module ManifestParserProofs.
Import Mem ManifestParser ManifestFormat.

(** ** Loads *)

Lemma u8_range (b : byte) : 0 <= u8 b < 256.
Proof.
  unfold u8. pose proof (Byte.to_N_bounded b) as Hb.
  apply N2Z.inj_le in Hb. change (Z.of_N 255) with 255 in Hb.
  split; [apply N2Z.is_nonneg | lia].
Qed.

Lemma load8_range M a v : load8 M a = Ok v -> 0 <= v < 256.
Proof.
  unfold load8. destruct (a <? 0); [discriminate|].
  destruct (nth_error M (Z.to_nat a)); [|discriminate].
  intros E. injection E as <-. apply u8_range.
Qed.

Lemma load16_range M a v : load16 M a = Ok v -> 0 <= v < 65536.
Proof.
  unfold load16, bind.
  destruct (load8 M a) as [b0|] eqn:E0; [|discriminate].
  destruct (load8 M (a + 1)) as [b1|] eqn:E1; [|discriminate].
  intros E. assert (v = b0 + 256 * b1) as -> by congruence.
  apply load8_range in E0. apply load8_range in E1. lia.
Qed.

Lemma load8_nil a : load8 [] a = Fault (OutOfBounds a).
Proof.
  unfold load8. destruct (a <? 0); [reflexivity|].
  destruct (Z.to_nat a); reflexivity.
Qed.

(** ** Case analysis of mf_get_next_file *)

Ltac destr_result :=
  match goal with
  | |- context [bind ?r _] =>
      let E := fresh "E" in destruct r eqn:E; cbn [bind]
  | |- context [store ?p _] =>
      let E := fresh "E" in destruct p eqn:E; cbn [store bind]
  end.

Lemma may_advance_guard c out nf :
  next_file c = Some nf ->
  may_advance c out
  = (0 <? num_files_left c) && (0 <? bytes_left c)
    && negb (is_null (digest_algo_id out)) && negb (is_null (digest out)).
Proof.
  intros E. unfold may_advance. rewrite E. cbn [is_null negb].
  now rewrite andb_true_r.
Qed.

Lemma may_advance_no_cursor c out :
  next_file c = None -> may_advance c out = false.
Proof.
  intros E. unfold may_advance. rewrite E. cbn [is_null negb].
  now rewrite andb_false_r.
Qed.

(* The call refuses when the guard fails: nothing is read or written. *)
Lemma mf_get_next_file_refuses EFAULT M mf c out :
  may_advance c out = false ->
  mf_get_next_file EFAULT M mf (Some c) out = Ok (PNull, Some c, out).
Proof.
  intros G. unfold mf_get_next_file.
  destruct (next_file c) as [nf|] eqn:Enf; [|reflexivity].
  rewrite (may_advance_guard c out nf Enf) in G. now rewrite G.
Qed.

(* A zero counter makes the guard fail. *)
Lemma zero_counter_blocks c out :
  num_files_left c = 0 \/ bytes_left c = 0 -> may_advance c out = false.
Proof.
  unfold may_advance. intros [E|E]; rewrite E; cbn.
  - reflexivity.
  - now rewrite andb_false_r.
Qed.

(** ** The iterator is touched by a successful call only *)

(** C10: a call of mf_get_next_file that returns NULL or the error pointer
    leaves num_files_left, bytes_left and next_file as they were; only a
    call that returns a file name changes the iterator. *)
Theorem mf_get_next_file_changes_iterator_only_on_success :
  forall EFAULT M mf ctx out p ctx' out',
    mf_get_next_file EFAULT M mf ctx out = Ok (p, ctx', out') ->
    (~ is_filename p -> ctx' = ctx) /\ (ctx' <> ctx -> is_filename p).
Proof.
  intros EFAULT M mf ctx out p ctx' out' E.
  assert (D : is_filename p \/ ctx' = ctx).
  { revert E. unfold mf_get_next_file.
    destruct ctx as [c|]; [|intros [= <- <- <-]; now right].
    destruct (next_file c) as [nf|]; [|intros [= <- <- <-]; now right].
    destruct (_ && _); [|intros [= <- <- <-]; now right].
    repeat (destr_result; try (intros X; discriminate X)).
    all: destruct (_ =? _); try (intros X; discriminate X).
    all: try destruct (_ <=? _); intros [= <- <- <-];
      try (now right); left; exact I. }
  split.
  - intros N. destruct D; [contradiction | assumption].
  - intros N. destruct D; [assumption | contradiction].
Qed.

Lemma mf_get_next_file_changes_iterator_only_on_success_witness :
  mf_get_next_file Examples.EFAULT Examples.bad_name_blob None
    (Some Examples.bad_name_ctx) Examples.out0
  = Ok (ERR_PTR (- Examples.EFAULT), Some Examples.bad_name_ctx,
        Examples.out0)
  /\ ((~ is_filename (ERR_PTR (- Examples.EFAULT)) ->
       Some Examples.bad_name_ctx = Some Examples.bad_name_ctx)
      /\ (Some Examples.bad_name_ctx <> Some Examples.bad_name_ctx ->
          is_filename (ERR_PTR (- Examples.EFAULT)))).
Proof.
  split; [reflexivity|].
  apply (mf_get_next_file_changes_iterator_only_on_success
           Examples.EFAULT Examples.bad_name_blob None
           (Some Examples.bad_name_ctx) Examples.out0
           (ERR_PTR (- Examples.EFAULT)) (Some Examples.bad_name_ctx)
           Examples.out0).
  reflexivity.
Defined.

(** ** Exhausted counters and partial entries *)

(* First half of the iterator invariant: with num_files_left or bytes_left
   at zero the call returns NULL and the iterator stays where it is,
   whatever the blob holds. *)
Lemma mf_get_next_file_zero_counter EFAULT M mf c out :
  num_files_left c = 0 \/ bytes_left c = 0 ->
  mf_get_next_file EFAULT M mf (Some c) out = Ok (PNull, Some c, out).
Proof.
  intros Z0. apply mf_get_next_file_refuses. now apply zero_counter_blocks.
Qed.

(** C3: the iterator has 11 bytes left and points at an entry of 28 bytes
    (name_len 2, digest id 0) whose digest is cut after 3 bytes.  The call
    does not reject the partial entry: it returns the file name, hands out a
    digest pointer of which only 3 bytes are inside the blob, and bytes_left
    wraps around to 2^64 - 17. *)
Theorem mf_get_next_file_consumes_partial_entry :
  bytes_left Examples.partial_entry_ctx < 1 + 2 + 4 + 1 + 20
  /\ mf_get_next_file Examples.EFAULT Examples.partial_entry_blob None
       (Some Examples.partial_entry_ctx) Examples.out0
     = Ok (PAddr 1,
           Some {| num_files_left := 0;
                   bytes_left := 2 ^ 64 - 17;
                   next_file := Some 28 |},
           {| digest_algo_id := Some 0;
              digest := Some (Some 8);
              size := Some 100 |})
  /\ load_bytes Examples.partial_entry_blob 8 20 = Fault (OutOfBounds 11).
Proof.
  repeat split; vm_compute; reflexivity.
Qed.

(* The same state reached from a manifest: the DATA chunk is cut inside the
   digest of its only entry; mf_init_file_list_ctx leaves 11 bytes, and the
   next call consumes 28. *)
Example partial_entry_from_manifest :
  mf_init_file_list_ctx Examples.header Examples.partial_manifest (Some 0)
    (Some Examples.zero_ctx)
  = Ok (1, Some {| num_files_left := 1; bytes_left := 11;
                   next_file := Some 18 |})
  /\ mf_get_next_file Examples.EFAULT Examples.partial_manifest (Some 0)
       (Some {| num_files_left := 1; bytes_left := 11;
                next_file := Some 18 |}) Examples.out0
     = Ok (PAddr 19,
           Some {| num_files_left := 0;
                   bytes_left := 2 ^ 64 - 17;
                   next_file := Some 46 |},
           {| digest_algo_id := Some 0;
              digest := Some (Some 26);
              size := Some 100 |}).
Proof.
  split; vm_compute; reflexivity.
Qed.

(** ** A digest id outside digest_len *)

(* What the call does on an entry whose name is accepted and whose digest
   id is not below sizeof(digest_len). *)
Lemma mf_get_next_file_bad_algo EFAULT M mf c out nf filenamelen sz algo :
  may_advance c out = true ->
  next_file c = Some nf ->
  size out <> None ->
  load8 M nf = Ok filenamelen ->
  strlen M (nf + 1) = Ok (filenamelen - 1) ->
  load32 M (nf + filenamelen + 1) = Ok sz ->
  load8 M (nf + filenamelen + 5) = Ok algo ->
  sizeof_digest_len <= algo ->
  mf_get_next_file EFAULT M mf (Some c) out
  = Ok (PNull, Some c,
        {| digest_algo_id := Some algo;
           digest := Some (Some (nf + filenamelen + 6));
           size := Some sz |}).
Proof.
  intros G Enf Hsz E8 Es E32 Ea Hal.
  unfold mf_get_next_file. rewrite Enf.
  rewrite (may_advance_guard c out nf Enf) in G. rewrite G.
  rewrite E8. cbn [bind]. rewrite Es. cbn [bind].
  replace (filenamelen - 1 + 1 =? filenamelen) with true
    by (symmetry; apply Z.eqb_eq; lia).
  rewrite E32. cbn [bind].
  destruct (size out) as [s0|]; [|contradiction]. cbn [store bind].
  rewrite Ea. cbn [bind].
  replace (sizeof_digest_len <=? algo) with true
    by (symmetry; apply Z.leb_le; exact Hal).
  reflexivity.
Qed.

(** C5, as stated, fails: on an entry with digest id 5 the call returns
    NULL, the very value it returns at the end of the list (here on a
    zeroed iterator), not the error pointer. *)
Lemma bad_algo_returns_the_end_value :
  mf_get_next_file Examples.EFAULT Examples.bad_algo_blob None
    (Some Examples.bad_algo_ctx) Examples.out0
  = Ok (PNull, Some Examples.bad_algo_ctx,
        {| digest_algo_id := Some 5; digest := Some (Some 8);
           size := Some 100 |})
  /\ mf_get_next_file Examples.EFAULT Examples.bad_algo_blob None
       (Some Examples.zero_ctx) Examples.out0
     = Ok (PNull, Some Examples.zero_ctx, Examples.out0).
Proof.
  split; vm_compute; reflexivity.
Qed.

(** C5, amended: a digest id outside the digest_len table (id >= 5) stops
    the decoding of that entry: no file name is returned, no default
    algorithm replaces the id (the output variable holds the id as read) and
    the iterator does not advance; the value returned is NULL. *)
Theorem mf_get_next_file_rejects_bad_algo :
  forall EFAULT M mf c out nf filenamelen sz algo,
    may_advance c out = true ->
    next_file c = Some nf ->
    size out <> None ->
    load8 M nf = Ok filenamelen ->
    strlen M (nf + 1) = Ok (filenamelen - 1) ->
    load32 M (nf + filenamelen + 1) = Ok sz ->
    load8 M (nf + filenamelen + 5) = Ok algo ->
    5 <= algo ->
    exists out',
      mf_get_next_file EFAULT M mf (Some c) out = Ok (PNull, Some c, out')
      /\ digest_algo_id out' = Some algo.
Proof.
  intros EFAULT M mf c out nf filenamelen sz algo G Enf Hsz E8 Es E32 Ea Hal.
  eexists. split.
  - eapply mf_get_next_file_bad_algo; eauto.
  - reflexivity.
Qed.

Lemma mf_get_next_file_rejects_bad_algo_witness :
  exists out',
    mf_get_next_file Examples.EFAULT Examples.bad_first_blob None
      (Some Examples.bad_first_ctx) Examples.out0
    = Ok (PNull, Some Examples.bad_first_ctx, out')
    /\ digest_algo_id out' = Some 9.
Proof.
  apply (mf_get_next_file_rejects_bad_algo Examples.EFAULT
           Examples.bad_first_blob None Examples.bad_first_ctx Examples.out0
           0 2 100 9).
  - reflexivity.
  - reflexivity.
  - discriminate.
  - reflexivity.
  - reflexivity.
  - reflexivity.
  - reflexivity.
  - lia.
Defined.

(** ** A file name whose NUL is not where name_len says *)

(** C7, as stated, fails in its last part: with both counters above zero
    (2 files, 56 bytes) the call returns NULL, because the digest id of the
    entry is 9; the counters are still above zero after the call. *)
Lemma null_returned_with_counters_above_zero :
  0 < num_files_left Examples.bad_first_ctx
  /\ 0 < bytes_left Examples.bad_first_ctx
  /\ mf_get_next_file Examples.EFAULT Examples.bad_first_blob None
       (Some Examples.bad_first_ctx) Examples.out0
     = Ok (PNull, Some Examples.bad_first_ctx,
           {| digest_algo_id := Some 9; digest := Some (Some 8);
              size := Some 100 |}).
Proof.
  repeat split; vm_compute; reflexivity.
Qed.

(** C7, amended: at an entry whose name field has its first NUL elsewhere
    than at offset name_len - 1, a call that passes the guard returns the
    error pointer ERR_PTR(-EFAULT), neither a file name nor NULL, and leaves
    the iterator alone.  NULL is returned only when the guard fails (a
    counter at zero or a null pointer argument) or when the name is accepted
    and the digest id of the entry is 5 or more. *)
Theorem mf_get_next_file_malformed_name :
  forall EFAULT M mf c out nf filenamelen n,
    next_file c = Some nf ->
    load8 M nf = Ok filenamelen ->
    strlen M (nf + 1) = Ok n ->
    (may_advance c out = true -> n + 1 <> filenamelen ->
     mf_get_next_file EFAULT M mf (Some c) out
     = Ok (ERR_PTR (- EFAULT), Some c, out))
    /\ (forall ctx' out',
          mf_get_next_file EFAULT M mf (Some c) out = Ok (PNull, ctx', out')
          -> may_advance c out = false
             \/ (n + 1 = filenamelen
                 /\ exists algo,
                      load8 M (nf + filenamelen + 5) = Ok algo
                      /\ 5 <= algo)).
Proof.
  intros EFAULT M mf c out nf filenamelen n Enf E8 Es. split.
  - intros G Hn. unfold mf_get_next_file. rewrite Enf.
    rewrite (may_advance_guard c out nf Enf) in G. rewrite G.
    rewrite E8. cbn [bind]. rewrite Es. cbn [bind].
    replace (n + 1 =? filenamelen) with false
      by (symmetry; apply Z.eqb_neq; exact Hn).
    reflexivity.
  - intros ctx' out'. unfold mf_get_next_file. rewrite Enf.
    rewrite <- (may_advance_guard c out nf Enf).
    destruct (may_advance c out); [|intros _; now left].
    rewrite E8. cbn [bind]. rewrite Es. cbn [bind].
    destruct (n + 1 =? filenamelen) eqn:En; [|discriminate].
    apply Z.eqb_eq in En.
    repeat (destr_result; try (intros X; discriminate X)).
    destruct (sizeof_digest_len <=? a1) eqn:Ha; [|discriminate].
    intros _. right. split; [exact En|].
    exists a1. split; [reflexivity|]. apply Z.leb_le in Ha. exact Ha.
Qed.

Lemma mf_get_next_file_malformed_name_witness :
  mf_get_next_file Examples.EFAULT Examples.bad_name_blob None
    (Some Examples.bad_name_ctx) Examples.out0
  = Ok (ERR_PTR (- Examples.EFAULT), Some Examples.bad_name_ctx,
        Examples.out0).
Proof.
  apply (proj1 (mf_get_next_file_malformed_name Examples.EFAULT
                  Examples.bad_name_blob None Examples.bad_name_ctx
                  Examples.out0 0 2 2
                  eq_refl eq_refl eq_refl)).
  - reflexivity.
  - discriminate.
Defined.

(** ** Null and empty blobs *)

(** C4, as stated, fails: on a blob of length 0 that is not a null
    reference, mf_get_version loads the byte at offset 0 and mf_get_chunk
    the length field at offset 1, both outside the blob. *)
Lemma empty_blob_is_read :
  mf_get_version [] (Some 0) = Fault (OutOfBounds 0)
  /\ mf_get_chunk [] (Some 0) 0 = Fault (OutOfBounds 1).
Proof.
  split; reflexivity.
Qed.

(** C4, amended: on a null blob reference every accessor returns absent
    without loading a single byte (the equations hold for every content of
    the memory, the empty one included): mf_get_version returns 0;
    mf_get_chunk, mf_get_name and mf_get_app_data return NULL; mf_get_data,
    mf_get_public_key, mf_get_certificate and mf_get_signature return NULL
    and set a non-null length to 0; mf_init_file_list_ctx returns 0 and
    leaves the iterator as it found it; mf_get_next_file, which does not
    look at the blob reference, returns NULL on a zeroed iterator. *)
Theorem null_blob_accessors_return_absent :
  forall H EFAULT M chunk_type len ctx out,
    mf_get_version M NULL = Ok 0
    /\ mf_get_chunk M NULL chunk_type = Ok NULL
    /\ mf_get_name H M NULL = Ok NULL
    /\ mf_get_app_data H M NULL = Ok NULL
    /\ mf_get_data H M NULL len = Ok (NULL, option_map (fun _ => 0) len)
    /\ mf_get_public_key H M NULL len
       = Ok (NULL, option_map (fun _ => 0) len)
    /\ mf_get_certificate H M NULL len
       = Ok (NULL, option_map (fun _ => 0) len)
    /\ mf_get_signature H M NULL len
       = Ok (NULL, option_map (fun _ => 0) len)
    /\ mf_init_file_list_ctx H M NULL ctx = Ok (0, ctx)
    /\ mf_get_next_file EFAULT M NULL (Some Examples.zero_ctx) out
       = Ok (PNull, Some Examples.zero_ctx, out).
Proof.
  intros H EFAULT M chunk_type len ctx out.
  repeat split; try reflexivity.
  - destruct len; reflexivity.
  - destruct len; reflexivity.
  - destruct len; reflexivity.
  - destruct len; reflexivity.
  - destruct ctx; reflexivity.
Qed.

(** ** The bound test of mf_get_chunk *)

(* What the test of the loop does guarantee: a chunk that is returned starts
   inside the declared length, has the requested type, and ends at most one
   byte past the declared length. *)
Lemma mf_get_chunk_loop_bound M env chunk_type len :
  forall remaining pos c,
    mf_get_chunk_loop M env chunk_type len remaining pos = Ok (Some c) ->
    exists p clen,
      c = env_data env + p
      /\ p < len
      /\ load8 M (chunk_type_of c) = Ok chunk_type
      /\ load16 M (chunk_len_of c) = Ok clen
      /\ p + clen + 3 <= len + 1.
Proof.
  induction remaining as [|remaining IH]; intros pos c; cbn [mf_get_chunk_loop].
  - discriminate.
  - destruct (pos <? len) eqn:Hp; [|discriminate].
    destruct (load8 M (chunk_type_of (env_data env + pos))) as [ty|] eqn:Et;
      cbn [bind]; [|discriminate].
    destruct (load16 M (chunk_len_of (env_data env + pos))) as [clen|] eqn:El;
      cbn [bind]; [|discriminate].
    destruct (ty =? chunk_type) eqn:Ety.
    + destruct (pos + clen + 3 <=? len + 1) eqn:Hb; [|discriminate].
      intros X. assert (c = env_data env + pos) as -> by congruence.
      apply Z.eqb_eq in Ety. subst ty.
      apply Z.ltb_lt in Hp. apply Z.leb_le in Hb.
      exists pos, clen. repeat split; assumption.
    + apply IH.
Qed.

Lemma mf_get_chunk_bound M env chunk_type c :
  mf_get_chunk M (Some env) chunk_type = Ok (Some c) ->
  exists len p clen,
    load16 M (env_len env) = Ok len
    /\ c = env_data env + p
    /\ p < len
    /\ load8 M (chunk_type_of c) = Ok chunk_type
    /\ load16 M (chunk_len_of c) = Ok clen
    /\ p + clen + 3 <= len + 1.
Proof.
  unfold mf_get_chunk.
  destruct (load16 M (env_len env)) as [len|] eqn:El; cbn [bind];
    [|discriminate].
  intros E. apply mf_get_chunk_loop_bound in E.
  destruct E as (p & clen & E). exists len, p, clen. split; [reflexivity|].
  exact E.
Qed.

(** C1: the envelope declares 3 bytes of chunks; the chunk of type 7 found
    at offset 0 declares 1 byte of payload, so it ends at offset 4, past the
    declared length.  mf_get_chunk returns the chunk all the same, and
    mf_get_chunk_data hands out a view of one byte at address 6, which is
    outside the envelope and, here, outside the blob. *)
Theorem mf_get_chunk_accepts_overrun_by_one :
  load16 Examples.overrun_blob (env_len 0) = Ok 3
  /\ load16 Examples.overrun_blob (chunk_len_of (env_data 0 + 0)) = Ok 1
  /\ mf_get_chunk Examples.overrun_blob (Some 0) 7 = Ok (Some 3)
  /\ mf_get_chunk_data Examples.overrun_blob (Some 0) 7 (Some 0)
     = Ok (Some 6, Some 1)
  /\ load8 Examples.overrun_blob 6 = Fault (OutOfBounds 6).
Proof.
  repeat split; vm_compute; reflexivity.
Qed.

(** ** Reading a region whose bytes are known *)

Lemma holds_suffix_at M a bs : holds M a bs -> suffix_at M a bs.
Proof.
  intros [Ha E]. split; [exact Ha|].
  exists (skipn (List.length bs) (skipn (Z.to_nat a) M)).
  rewrite <- E at 1. symmetry. apply firstn_skipn.
Qed.

Lemma suffix_at_app M a x y :
  suffix_at M a (x ++ y) -> suffix_at M (a + Z.of_nat (List.length x)) y.
Proof.
  intros [Ha [rest E]]. split; [lia|]. exists rest.
  replace (Z.to_nat (a + Z.of_nat (List.length x)))
    with (List.length x + Z.to_nat a)%nat by lia.
  rewrite <- skipn_skipn, E, <- app_assoc, skipn_app, skipn_all.
  rewrite Nat.sub_diag. reflexivity.
Qed.

Lemma suffix_at_cons M a b bs :
  suffix_at M a (b :: bs) -> load8 M a = Ok (u8 b) /\ suffix_at M (a + 1) bs.
Proof.
  intros S. split.
  - destruct S as [Ha [rest E]]. unfold load8.
    replace (a <? 0) with false by (symmetry; apply Z.ltb_ge; exact Ha).
    replace (Z.to_nat a) with (Z.to_nat a + 0)%nat by lia.
    rewrite <- nth_error_skipn, E. reflexivity.
  - apply (suffix_at_app M a [b] bs). exact S.
Qed.

Lemma suffix_at_load8 M a b bs :
  suffix_at M a (b :: bs) -> load8 M a = Ok (u8 b).
Proof.
  intros S. apply (suffix_at_cons M a b bs S).
Qed.

Lemma suffix_at_load32 M a b0 b1 b2 b3 bs :
  suffix_at M a (b0 :: b1 :: b2 :: b3 :: bs) ->
  exists v, load32 M a = Ok v.
Proof.
  intros S0.
  destruct (suffix_at_cons _ _ _ _ S0) as [E0 S1].
  destruct (suffix_at_cons _ _ _ _ S1) as [E1 S2].
  destruct (suffix_at_cons _ _ _ _ S2) as [E2 S3].
  destruct (suffix_at_cons _ _ _ _ S3) as [E3 _].
  unfold load32, load16.
  replace (a + 2 + 1) with (a + 1 + 1 + 1) by lia.
  replace (a + 2) with (a + 1 + 1) by lia.
  rewrite E0, E1, E2, E3. cbn [bind]. eexists. reflexivity.
Qed.

Lemma strlen_bytes_name name rest :
  Forall (fun b => b <> x00) name ->
  strlen_bytes (name ++ x00 :: rest) = Some (Z.of_nat (List.length name)).
Proof.
  induction 1 as [|b name Hb _ IH]; [reflexivity|].
  cbn [app strlen_bytes List.length].
  destruct (Byte.eqb b x00) eqn:Eb.
  - apply Byte.byte_dec_bl in Eb. contradiction.
  - rewrite IH. cbn [option_map]. f_equal. lia.
Qed.

Lemma suffix_at_strlen M a name rest :
  suffix_at M a (name ++ x00 :: rest) ->
  Forall (fun b => b <> x00) name ->
  strlen M a = Ok (Z.of_nat (List.length name)).
Proof.
  intros [Ha [rest' E]] Hn. unfold strlen.
  replace (a <? 0) with false by (symmetry; apply Z.ltb_ge; exact Ha).
  rewrite E, <- app_assoc. cbn [app].
  rewrite strlen_bytes_name by exact Hn. reflexivity.
Qed.

Lemma u8_byte_of_Z z : 0 <= z < 256 -> u8 (byte_of_Z z) = z.
Proof.
  intros Hz. unfold u8, byte_of_Z.
  rewrite Z.mod_small by exact Hz.
  destruct (Byte.of_N (Z.to_N z)) as [b|] eqn:E.
  - apply Byte.to_of_N in E. rewrite E. lia.
  - apply Byte.of_N_None_iff in E. lia.
Qed.

(** ** One call on a well-formed entry *)

Lemma encode_entry_length e :
  entry_ok e -> Z.of_nat (List.length (encode_entry e)) = entry_size e.
Proof.
  intros (_ & _ & _ & Hd). unfold encode_entry, entry_size, name_len.
  cbn [List.length]. rewrite length_app. cbn [List.length le32 app].
  rewrite <- Hd. lia.
Qed.

Lemma entry_size_pos e : entry_ok e -> 27 <= entry_size e.
Proof.
  intros (_ & _ & Ha & _). unfold entry_size, name_len.
  assert (20 <= nth (Z.to_nat (fe_algo e)) digest_len 0).
  { change sizeof_digest_len with 5 in Ha.
    assert (fe_algo e = 0 \/ fe_algo e = 1 \/ fe_algo e = 2
            \/ fe_algo e = 3 \/ fe_algo e = 4) as D by lia.
    destruct D as [-> | [-> | [-> | [-> | ->]]]];
      vm_compute; intro X; discriminate X. }
  lia.
Qed.

Lemma mf_get_next_file_on_entry EFAULT M mf c out nf e rest :
  suffix_at M nf (encode_entry e ++ rest) ->
  entry_ok e ->
  next_file c = Some nf ->
  0 < num_files_left c ->
  0 < bytes_left c ->
  out_ready out ->
  exists out',
    mf_get_next_file EFAULT M mf (Some c) out
    = Ok (PAddr (nf + 1),
          Some {| num_files_left := num_files_left c - 1;
                  bytes_left := wrap64 (bytes_left c - entry_size e);
                  next_file := Some (nf + entry_size e) |},
          out')
    /\ out_ready out'.
Proof.
  intros S0 Hok Enf Hn Hb (Ho1 & Ho2 & Ho3).
  pose proof Hok as (Hname & Hlen & Halgo & Hdig).
  unfold encode_entry in S0. cbn [app] in S0. rewrite <- app_assoc in S0.
  cbn [app le32] in S0.
  destruct (suffix_at_cons _ _ _ _ S0) as [E8 S1].
  rewrite u8_byte_of_Z in E8 by (unfold name_len in *; lia).
  pose proof (suffix_at_strlen _ _ _ _ S1 Hname) as Es.
  apply suffix_at_app in S1.
  destruct (suffix_at_cons _ _ _ _ S1) as [_ S2].
  destruct (suffix_at_load32 _ _ _ _ _ _ _ S2) as [sz E32].
  destruct (suffix_at_cons _ _ _ _ S2) as [_ S3].
  destruct (suffix_at_cons _ _ _ _ S3) as [_ S4].
  destruct (suffix_at_cons _ _ _ _ S4) as [_ S5].
  destruct (suffix_at_cons _ _ _ _ S5) as [_ S6].
  destruct (suffix_at_cons _ _ _ _ S6) as [Ea _].
  change sizeof_digest_len with 5 in Halgo.
  rewrite u8_byte_of_Z in Ea by lia.
  unfold name_len in E8.
  replace (nf + 1 + Z.of_nat (List.length (fe_name e)) + 1)
    with (nf + name_len e + 1) in E32 by (unfold name_len; lia).
  replace (nf + 1 + Z.of_nat (List.length (fe_name e)) + 1 + 1 + 1 + 1 + 1)
    with (nf + name_len e + 5) in Ea by (unfold name_len; lia).
  fold (name_len e) in E8.
  unfold mf_get_next_file. rewrite Enf.
  replace (0 <? num_files_left c) with true
    by (symmetry; apply Z.ltb_lt; exact Hn).
  replace (0 <? bytes_left c) with true
    by (symmetry; apply Z.ltb_lt; exact Hb).
  destruct (digest_algo_id out) as [a0|]; [|contradiction].
  destruct (digest out) as [d0|]; [|contradiction].
  destruct (size out) as [s0|]; [|contradiction].
  cbn [is_null negb andb].
  rewrite E8. cbn [bind]. rewrite Es. cbn [bind].
  replace (Z.of_nat (List.length (fe_name e)) + 1 =? name_len e) with true
    by (symmetry; apply Z.eqb_eq; reflexivity).
  rewrite E32. cbn [store bind]. rewrite Ea. cbn [bind].
  replace (sizeof_digest_len <=? fe_algo e) with false
    by (symmetry; apply Z.leb_gt; change sizeof_digest_len with 5; lia).
  eexists. split.
  - unfold entry_size.
    replace (1 + name_len e + 5) with (1 + name_len e + 4 + 1) by lia.
    reflexivity.
  - repeat split; discriminate.
Qed.

(** ** Iterating over a well-formed file list *)

Lemma encode_entries_cons e es :
  encode_entries (e :: es) = encode_entry e ++ encode_entries es.
Proof. reflexivity. Qed.

Lemma encode_entries_length es :
  Forall entry_ok es ->
  27 * Z.of_nat (List.length es)
  <= Z.of_nat (List.length (encode_entries es)).
Proof.
  induction 1 as [|e es He _ IH]; [cbn; lia|].
  rewrite encode_entries_cons, length_app. cbn [List.length].
  pose proof (encode_entry_length e He).
  pose proof (entry_size_pos e He). lia.
Qed.

Lemma mf_get_next_file_n_entries EFAULT M mf :
  forall es nf c out,
    suffix_at M nf (encode_entries es) ->
    Forall entry_ok es ->
    next_file c = Some nf ->
    num_files_left c = Z.of_nat (List.length es) ->
    bytes_left c = Z.of_nat (List.length (encode_entries es)) ->
    bytes_left c < 2 ^ 64 ->
    out_ready out ->
    exists ps cN outN,
      mf_get_next_file_n EFAULT M mf (List.length es) (Some c) out
      = Ok (ps, Some cN, outN)
      /\ List.length ps = List.length es
      /\ Forall is_filename ps
      /\ num_files_left cN = 0
      /\ bytes_left cN = 0.
Proof.
  induction es as [|e es IH]; intros nf c out S Hok Enf Hn Hb Hlt Hout.
  - exists [], c, out. cbn in *. repeat split; auto.
  - inversion Hok as [|e' es' He Hes]; subst e' es'.
    rewrite encode_entries_cons in S, Hb.
    rewrite length_app, Nat2Z.inj_add, (encode_entry_length e He) in Hb.
    pose proof (entry_size_pos e He) as Hpos.
    destruct (mf_get_next_file_on_entry EFAULT M mf c out nf e
                (encode_entries es) S He Enf) as (out1 & E1 & Hout1);
      [cbn [List.length] in Hn; lia | lia | exact Hout |].
    set (c1 := {| num_files_left := num_files_left c - 1;
                  bytes_left := wrap64 (bytes_left c - entry_size e);
                  next_file := Some (nf + entry_size e) |}) in *.
    assert (Hb1 : bytes_left c1
                  = Z.of_nat (List.length (encode_entries es))).
    { cbn [c1 bytes_left]. unfold wrap64. rewrite Z.mod_small; lia. }
    apply suffix_at_app in S. rewrite (encode_entry_length e He) in S.
    destruct (IH (nf + entry_size e) c1 out1 S Hes eq_refl)
      as (ps & cN & outN & En & Hl & Hf & HnN & HbN);
      [cbn [c1 num_files_left List.length] in *; lia
      | exact Hb1 | lia | exact Hout1 |].
    exists (PAddr (nf + 1) :: ps), cN, outN.
    cbn [mf_get_next_file_n List.length]. rewrite E1. cbn [bind].
    rewrite En. cbn [bind].
    repeat split; auto. constructor; [exact I | exact Hf].
Qed.

Lemma mf_get_chunk_data_len_range M mf chunk_type len0 data len :
  mf_get_chunk_data M mf chunk_type (Some len0) = Ok (Some data, Some len) ->
  0 <= len < 65536.
Proof.
  unfold mf_get_chunk_data.
  destruct (mf_get_chunk M mf chunk_type) as [[c|]|]; cbn [bind];
    try discriminate.
  destruct (load16 M (chunk_len_of c)) as [l|] eqn:E; cbn [bind];
    [|discriminate].
  intros X. assert (l = len) as <- by congruence.
  exact (load16_range _ _ _ E).
Qed.

(** ** What each call hands out *)

Import IteratorFormat.

Lemma u8_of_Z_mod z : u8 (byte_of_Z z) = z mod 256.
Proof.
  pose proof (Z.mod_pos_bound z 256 ltac:(lia)) as Hm.
  rewrite <- (u8_byte_of_Z (z mod 256) Hm). f_equal.
  unfold byte_of_Z. rewrite Z.mod_mod by lia. reflexivity.
Qed.

Lemma le32_value z :
  z mod 256 + 256 * ((z / 2 ^ 8) mod 256)
  + 65536 * ((z / 2 ^ 16) mod 256 + 256 * ((z / 2 ^ 24) mod 256))
  = z mod 2 ^ 32.
Proof.
  change (2 ^ 32) with (256 * (256 * (256 * 256))).
  change (2 ^ 8) with 256. change (2 ^ 16) with (256 * 256).
  change (2 ^ 24) with (256 * 256 * 256).
  rewrite (Z.rem_mul_r z 256 (256 * (256 * 256))) by lia.
  rewrite (Z.rem_mul_r (z / 256) 256 (256 * 256)) by lia.
  rewrite (Z.rem_mul_r (z / 256 / 256) 256 256) by lia.
  rewrite <- !Z.div_div by lia. lia.
Qed.

Lemma suffix_at_load32_le32 M a z rest :
  suffix_at M a (le32 z ++ rest) -> load32 M a = Ok (z mod 2 ^ 32).
Proof.
  intros S0. unfold le32 in S0. cbn [app] in S0.
  destruct (suffix_at_cons _ _ _ _ S0) as [E0 S1].
  destruct (suffix_at_cons _ _ _ _ S1) as [E1 S2].
  destruct (suffix_at_cons _ _ _ _ S2) as [E2 S3].
  destruct (suffix_at_cons _ _ _ _ S3) as [E3 _].
  unfold load32, load16.
  replace (a + 2 + 1) with (a + 1 + 1 + 1) by lia.
  replace (a + 2) with (a + 1 + 1) by lia.
  rewrite E0, E1, E2, E3. cbn [bind].
  rewrite !u8_of_Z_mod. f_equal. apply le32_value.
Qed.

Lemma suffix_take M a x y : suffix_at M a (x ++ y) -> suffix_at M a x.
Proof.
  intros [Ha [rest E]]. split; [exact Ha|]. exists (y ++ rest).
  now rewrite E, app_assoc.
Qed.

Lemma suffix_to_holds M a bs : suffix_at M a bs -> holds M a bs.
Proof.
  intros [Ha [rest E]]. split; [exact Ha|].
  rewrite E, firstn_app, Nat.sub_diag, firstn_all. cbn [firstn].
  apply app_nil_r.
Qed.

(* The parts of an entry stored at [a]. *)
Lemma entry_parts M a e rest :
  suffix_at M a (encode_entry e ++ rest) ->
  entry_ok e ->
  load8 M a = Ok (name_len e)
  /\ suffix_at M (a + 1) (fe_name e ++ [x00])
  /\ load32 M (a + name_len e + 1) = Ok (fe_size e mod 2 ^ 32)
  /\ load8 M (a + name_len e + 5) = Ok (fe_algo e)
  /\ suffix_at M (a + name_len e + 6) (fe_digest e).
Proof.
  intros S0 (Hname & Hlen & Halgo & Hdig).
  unfold encode_entry in S0. cbn [app] in S0. rewrite <- app_assoc in S0.
  cbn [app] in S0. rewrite <- app_assoc in S0. cbn [app] in S0.
  destruct (suffix_at_cons _ _ _ _ S0) as [E8 S1].
  rewrite u8_byte_of_Z in E8 by (unfold name_len in *; lia).
  assert (Sname : suffix_at M (a + 1) (fe_name e ++ [x00])).
  { apply (suffix_take _ _ _
             (le32 (fe_size e) ++ byte_of_Z (fe_algo e) :: fe_digest e
              ++ rest)).
    rewrite <- app_assoc. cbn [app]. exact S1. }
  apply suffix_at_app in S1.
  destruct (suffix_at_cons _ _ _ _ S1) as [_ S2].
  replace (a + 1 + Z.of_nat (List.length (fe_name e)) + 1)
    with (a + name_len e + 1) in S2 by (unfold name_len; lia).
  assert (E32 := suffix_at_load32_le32 M _ (fe_size e) _ S2).
  apply suffix_at_app in S2. cbn [le32 List.length] in S2.
  destruct (suffix_at_cons _ _ _ _ S2) as [Ea S3].
  change sizeof_digest_len with 5 in Halgo.
  rewrite u8_byte_of_Z in Ea by lia.
  replace (a + name_len e + 1 + Z.of_nat 4) with (a + name_len e + 5)
    in Ea, S3 by lia.
  replace (a + name_len e + 5 + 1) with (a + name_len e + 6) in S3 by lia.
  apply suffix_take in S3.
  repeat split; try assumption.
  - destruct Sname; assumption.
  - destruct Sname; assumption.
  - destruct S3; assumption.
  - destruct S3; assumption.
Qed.

Lemma mf_get_next_file_entry_view EFAULT M mf c out nf e rest :
  suffix_at M nf (encode_entry e ++ rest) ->
  entry_ok e ->
  next_file c = Some nf ->
  0 < num_files_left c ->
  0 < bytes_left c ->
  out_ready out ->
  mf_get_next_file EFAULT M mf (Some c) out
  = Ok (fst (entry_view nf e),
        Some {| num_files_left := num_files_left c - 1;
                bytes_left := wrap64 (bytes_left c - entry_size e);
                next_file := Some (nf + entry_size e) |},
        snd (entry_view nf e)).
Proof.
  intros S0 Hok Enf Hn Hb (Ho1 & Ho2 & Ho3).
  destruct (entry_parts M nf e rest S0 Hok) as (E8 & Sn & E32 & Ea & _).
  pose proof Hok as (Hname & Hlen & Halgo & Hdig).
  change sizeof_digest_len with 5 in Halgo.
  assert (Es : strlen M (nf + 1) = Ok (Z.of_nat (List.length (fe_name e))))
    by (apply (suffix_at_strlen M (nf + 1) (fe_name e) []); assumption).
  unfold mf_get_next_file. rewrite Enf.
  replace (0 <? num_files_left c) with true
    by (symmetry; apply Z.ltb_lt; exact Hn).
  replace (0 <? bytes_left c) with true
    by (symmetry; apply Z.ltb_lt; exact Hb).
  destruct (digest_algo_id out) as [a0|]; [|contradiction].
  destruct (digest out) as [d0|]; [|contradiction].
  destruct (size out) as [s0|]; [|contradiction].
  cbn [is_null negb andb].
  rewrite E8. cbn [bind]. rewrite Es. cbn [bind].
  replace (Z.of_nat (List.length (fe_name e)) + 1 =? name_len e) with true
    by (symmetry; apply Z.eqb_eq; reflexivity).
  rewrite E32. cbn [store bind]. rewrite Ea. cbn [bind].
  replace (sizeof_digest_len <=? fe_algo e) with false
    by (symmetry; apply Z.leb_gt; change sizeof_digest_len with 5; lia).
  unfold entry_view, entry_size. cbn [fst snd].
  replace (1 + name_len e + 5) with (1 + name_len e + 4 + 1) by lia.
  reflexivity.
Qed.

Lemma entry_view_ready a e : out_ready (snd (entry_view a e)).
Proof. repeat split; discriminate. Qed.

(* The calls on a list of entries hand out the views of the entries, in
   order, and end with both counters at zero and the cursor behind the last
   entry. *)
Lemma mf_get_next_file_calls_entries EFAULT M mf :
  forall es nf c out,
    suffix_at M nf (encode_entries es) ->
    Forall entry_ok es ->
    next_file c = Some nf ->
    num_files_left c = Z.of_nat (List.length es) ->
    bytes_left c = Z.of_nat (List.length (encode_entries es)) ->
    bytes_left c < 2 ^ 64 ->
    out_ready out ->
    mf_get_next_file_calls EFAULT M mf (List.length es) (Some c) out
    = Ok (entry_views nf es,
          Some (if Nat.eqb (List.length es) 0 then c
                else {| num_files_left := 0;
                        bytes_left := 0;
                        next_file :=
                          Some (nf + Z.of_nat
                                       (List.length (encode_entries es)))
                     |})).
Proof.
  induction es as [|e es IH]; intros nf c out S Hok Enf Hn Hb Hlt Hout.
  - reflexivity.
  - inversion Hok as [|e' es' He Hes]; subst e' es'.
    rewrite encode_entries_cons in S, Hb |- *.
    rewrite length_app, Nat2Z.inj_add, (encode_entry_length e He) in Hb.
    pose proof (entry_size_pos e He) as Hpos.
    cbn [List.length Nat.eqb mf_get_next_file_calls entry_views].
    rewrite (mf_get_next_file_entry_view EFAULT M mf c out nf e
               (encode_entries es) S He Enf)
      by (try exact Hout; cbn [List.length] in Hn; lia).
    cbn [bind].
    set (c1 := {| num_files_left := num_files_left c - 1;
                  bytes_left := wrap64 (bytes_left c - entry_size e);
                  next_file := Some (nf + entry_size e) |}).
    assert (Hb1 : bytes_left c1
                  = Z.of_nat (List.length (encode_entries es))).
    { cbn [c1 bytes_left]. unfold wrap64. rewrite Z.mod_small; lia. }
    apply suffix_at_app in S. rewrite (encode_entry_length e He) in S.
    rewrite (IH (nf + entry_size e) c1 (snd (entry_view nf e)) S Hes
               eq_refl)
      by (try exact Hb1; try apply entry_view_ready;
          cbn [c1 num_files_left List.length] in *; lia).
    cbn [bind fst snd]. f_equal. f_equal. f_equal.
    rewrite length_app, Nat2Z.inj_add, (encode_entry_length e He).
    destruct es as [|e2 es2].
    + cbn [List.length Nat.eqb encode_entries map List.concat].
      unfold c1. f_equal.
      * cbn [List.length] in Hn. lia.
      * cbn [encode_entries map List.concat List.length] in Hb.
        unfold wrap64. rewrite Z.mod_small; lia.
      * f_equal. cbn. lia.
    + cbn [List.length Nat.eqb]. f_equal. f_equal. lia.
Qed.

Lemma views_hold_entries M :
  forall es nf,
    suffix_at M nf (encode_entries es) ->
    Forall entry_ok es ->
    views_hold M nf es.
Proof.
  induction es as [|e es IH]; intros nf S Hok; [exact I|].
  inversion Hok as [|e' es' He Hes]; subst e' es'.
  rewrite encode_entries_cons in S.
  destruct (entry_parts M nf e _ S He) as (_ & Sn & _ & _ & Sd).
  cbn [views_hold]. split; [|split].
  - apply suffix_to_holds. exact Sn.
  - apply suffix_to_holds. exact Sd.
  - apply IH; [|exact Hes].
    apply suffix_at_app in S. now rewrite (encode_entry_length e He) in S.
Qed.

(* The pointers of the views are file names. *)
Lemma entry_views_filenames es : forall a,
  Forall is_filename (map fst (entry_views a es))
  /\ List.length (map fst (entry_views a es)) = List.length es.
Proof.
  induction es as [|e es IH]; intros a; cbn [entry_views map List.length].
  - split; [constructor | reflexivity].
  - destruct (IH (a + entry_size e)) as [Hf Hl].
    split; [constructor; [exact I | exact Hf] | now rewrite Hl].
Qed.

Lemma last_cons_default {A : Type} (l : list A) :
  forall x d, last (x :: l) d = last l x.
Proof.
  induction l as [|y l IH]; intros x d; [reflexivity|].
  change (last (x :: y :: l) d) with (last (y :: l) d).
  now rewrite (IH y d), (IH y x).
Qed.

(* The two ways of writing successive calls agree. *)
Lemma mf_get_next_file_n_of_calls EFAULT M mf :
  forall n ctx out calls ctx',
    mf_get_next_file_calls EFAULT M mf n ctx out = Ok (calls, ctx') ->
    mf_get_next_file_n EFAULT M mf n ctx out
    = Ok (map fst calls, ctx', last (map snd calls) out).
Proof.
  induction n as [|n IH]; intros ctx out calls ctx';
    cbn [mf_get_next_file_calls mf_get_next_file_n].
  - intros [= <- <-]. reflexivity.
  - destruct (mf_get_next_file EFAULT M mf ctx out) as [[[p c1] o1]|];
      cbn [bind]; [|discriminate].
    destruct (mf_get_next_file_calls EFAULT M mf n c1 o1) as [[cs c2]|] eqn:E;
      cbn [bind fst snd]; [|discriminate].
    intros [= <- <-]. rewrite (IH c1 o1 cs c2 E). cbn [bind map fst snd].
    f_equal. f_equal. symmetry. apply last_cons_default.
Qed.

(** C6: for a well-formed app-data record with N file entries, found as the
    DATA chunk of the blob, mf_init_file_list_ctx returns N and an iterator
    on the first entry with the size of the file list in bytes_left.  The
    next N calls of mf_get_next_file return, entry by entry and in order,
    the address of the entry's name, its digest id, the address of its
    digest and its size, and the blob holds the entry's name (with its NUL)
    and digest at these addresses: each of the N calls returns the file name
    of its entry.  After the N-th call both counters are exactly 0 and the
    cursor is behind the last entry; the call after that returns NULL, the
    end of the list. *)
Theorem file_iterator_visits_every_entry :
  forall H EFAULT M mf data len es ctx0 out,
    mf_get_chunk_data M mf (TYPE_MANIFEST_DATA H) (Some 0)
    = Ok (Some data, Some len) ->
    well_formed_app_data H M data len es ->
    out_ready out ->
    exists app_name_len ctx1 ps ctxN outN,
      load8 M (data + app_name_len_off H) = Ok app_name_len
      /\ ctx1 = {| num_files_left := Z.of_nat (List.length es);
                   bytes_left :=
                     Z.of_nat (List.length (encode_entries es));
                   next_file :=
                     Some (data + app_name_off H + app_name_len) |}
      /\ mf_init_file_list_ctx H M mf (Some ctx0)
         = Ok (Z.of_nat (List.length es), Some ctx1)
      /\ mf_get_next_file_calls EFAULT M mf (List.length es) (Some ctx1) out
         = Ok (entry_views (data + app_name_off H + app_name_len) es,
               Some ctxN)
      /\ views_hold M (data + app_name_off H + app_name_len) es
      /\ ps = map fst
                (entry_views (data + app_name_off H + app_name_len) es)
      /\ mf_get_next_file_n EFAULT M mf (List.length es) (Some ctx1) out
         = Ok (ps, Some ctxN, outN)
      /\ List.length ps = List.length es
      /\ Forall is_filename ps
      /\ num_files_left ctxN = 0
      /\ bytes_left ctxN = 0
      /\ next_file ctxN
         = Some (data + app_name_off H + app_name_len
                 + Z.of_nat (List.length (encode_entries es)))
      /\ mf_get_next_file EFAULT M mf (Some ctxN) outN
         = Ok (PNull, Some ctxN, outN).
Proof.
  intros H EFAULT M mf data len es ctx0 out Hcd [Hh Hnf Hname Hes] Hout.
  destruct Hname as (anl & Eanl & _ & Hlen & Hholds).
  pose proof (mf_get_chunk_data_len_range _ _ _ _ _ _ Hcd) as Hr.
  pose proof (encode_entries_length es Hes) as Hsz.
  pose proof (load8_range _ _ _ Eanl) as Hanl.
  set (start := data + app_name_off H + anl).
  set (c1 := {| num_files_left := Z.of_nat (List.length es);
                bytes_left := Z.of_nat (List.length (encode_entries es));
                next_file := Some start |}).
  assert (Einit : mf_init_file_list_ctx H M mf (Some ctx0)
                  = Ok (Z.of_nat (List.length es), Some c1)).
  { unfold mf_init_file_list_ctx. rewrite Hcd. cbn [bind fst snd deref].
    rewrite Hnf. cbn [bind]. rewrite Eanl. cbn [bind num_files_left].
    assert (W32 : wrap32 (Z.of_nat (List.length es))
                  = Z.of_nat (List.length es))
      by (unfold wrap32; apply Z.mod_small; lia).
    assert (W64 : wrap64 (len - 8 - anl)
                  = Z.of_nat (List.length (encode_entries es)))
      by (unfold wrap64; rewrite Z.mod_small; lia).
    unfold to_int. rewrite !W32, W64.
    replace (Z.of_nat (List.length es) <? 2 ^ 31) with true
      by (symmetry; apply Z.ltb_lt; lia).
    reflexivity. }
  pose proof (holds_suffix_at _ _ _ Hholds) as Ssuf.
  assert (Ecalls := mf_get_next_file_calls_entries EFAULT M mf es start c1
                      out Ssuf Hes eq_refl eq_refl eq_refl
                      ltac:(cbn [c1 bytes_left]; lia) Hout).
  set (cN := if Nat.eqb (List.length es) 0 then c1
             else {| num_files_left := 0;
                     bytes_left := 0;
                     next_file :=
                       Some (start + Z.of_nat
                                       (List.length (encode_entries es)))
                  |}) in *.
  assert (HcN : num_files_left cN = 0 /\ bytes_left cN = 0
                /\ next_file cN
                   = Some (start + Z.of_nat
                                     (List.length (encode_entries es)))).
  { unfold cN. destruct es as [|e es']; cbn [List.length Nat.eqb].
    - cbn [c1 num_files_left bytes_left next_file encode_entries map
              List.concat List.length]. repeat split. f_equal. cbn. lia.
    - repeat split. }
  destruct HcN as (Hn0 & Hb0 & Hnext).
  pose proof (mf_get_next_file_n_of_calls EFAULT M mf _ _ _ _ _ Ecalls)
    as En.
  destruct (entry_views_filenames es start) as [Hf Hl].
  exists anl, c1, (map fst (entry_views start es)), cN,
    (last (map snd (entry_views start es)) out).
  split; [exact Eanl|]. split; [reflexivity|]. split; [exact Einit|].
  split; [exact Ecalls|].
  split; [apply views_hold_entries; assumption|].
  split; [reflexivity|]. split; [exact En|]. split; [exact Hl|].
  split; [exact Hf|]. split; [exact Hn0|]. split; [exact Hb0|].
  split; [exact Hnext|].
  apply mf_get_next_file_zero_counter. now left.
Qed.

Lemma two_files_well_formed :
  well_formed_app_data Examples.header Examples.two_files_blob 13 81
    Examples.two_files.
Proof.
  constructor.
  - reflexivity.
  - reflexivity.
  - exists 4. repeat split; try reflexivity. vm_compute. discriminate.
  - repeat constructor; try discriminate; vm_compute; discriminate.
Defined.

(* The run on the two-entry manifest: the file list starts at address 25
   with 69 bytes; the names are at 26 and 54. *)
Example two_files_run :
  mf_init_file_list_ctx Examples.header Examples.two_files_blob (Some 0)
    (Some Examples.zero_ctx)
  = Ok (2, Some {| num_files_left := 2; bytes_left := 69;
                   next_file := Some 25 |})
  /\ mf_get_next_file_n Examples.EFAULT Examples.two_files_blob (Some 0) 3
       (Some {| num_files_left := 2; bytes_left := 69;
                next_file := Some 25 |}) Examples.out0
     = Ok ([PAddr 26; PAddr 54; PNull],
           Some {| num_files_left := 0; bytes_left := 0;
                   next_file := Some 94 |},
           {| digest_algo_id := Some 2; digest := Some (Some 62);
              size := Some 7 |}).
Proof.
  split; vm_compute; reflexivity.
Qed.

Lemma file_iterator_visits_every_entry_witness :
  exists app_name_len ctx1 ps ctxN outN,
    load8 Examples.two_files_blob (13 + app_name_len_off Examples.header)
    = Ok app_name_len
    /\ ctx1 = {| num_files_left := Z.of_nat (List.length Examples.two_files);
                 bytes_left :=
                   Z.of_nat (List.length
                               (encode_entries Examples.two_files));
                 next_file :=
                   Some (13 + app_name_off Examples.header + app_name_len) |}
    /\ mf_init_file_list_ctx Examples.header Examples.two_files_blob (Some 0)
         (Some Examples.zero_ctx)
       = Ok (Z.of_nat (List.length Examples.two_files), Some ctx1)
    /\ mf_get_next_file_calls Examples.EFAULT Examples.two_files_blob
         (Some 0) (List.length Examples.two_files) (Some ctx1) Examples.out0
       = Ok (entry_views (13 + app_name_off Examples.header + app_name_len)
               Examples.two_files,
             Some ctxN)
    /\ views_hold Examples.two_files_blob
         (13 + app_name_off Examples.header + app_name_len)
         Examples.two_files
    /\ ps = map fst
              (entry_views (13 + app_name_off Examples.header + app_name_len)
                 Examples.two_files)
    /\ mf_get_next_file_n Examples.EFAULT Examples.two_files_blob (Some 0)
         (List.length Examples.two_files) (Some ctx1) Examples.out0
       = Ok (ps, Some ctxN, outN)
    /\ List.length ps = List.length Examples.two_files
    /\ Forall is_filename ps
    /\ num_files_left ctxN = 0
    /\ bytes_left ctxN = 0
    /\ next_file ctxN
       = Some (13 + app_name_off Examples.header + app_name_len
               + Z.of_nat (List.length (encode_entries Examples.two_files)))
    /\ mf_get_next_file Examples.EFAULT Examples.two_files_blob (Some 0)
         (Some ctxN) outN
       = Ok (PNull, Some ctxN, outN).
Proof.
  apply (file_iterator_visits_every_entry Examples.header Examples.EFAULT
           Examples.two_files_blob (Some 0) 13 81 Examples.two_files
           Examples.zero_ctx Examples.out0).
  - reflexivity.
  - exact two_files_well_formed.
  - repeat split; discriminate.
Defined.

(* The views of the two entries: names at 26 and 54, digests at 33 and 62,
   sizes 100 and 7, digest ids 0 and 2. *)
Example two_files_views :
  entry_views 25 Examples.two_files
  = [ (PAddr 26, {| digest_algo_id := Some 0; digest := Some (Some 33);
                    size := Some 100 |});
      (PAddr 54, {| digest_algo_id := Some 2; digest := Some (Some 62);
                    size := Some 7 |}) ]
  /\ mf_get_next_file_calls Examples.EFAULT Examples.two_files_blob (Some 0)
       2 (Some {| num_files_left := 2; bytes_left := 69;
                  next_file := Some 25 |}) Examples.out0
     = Ok (entry_views 25 Examples.two_files,
           Some {| num_files_left := 0; bytes_left := 0;
                   next_file := Some 94 |}).
Proof.
  split; vm_compute; reflexivity.
Qed.

End ManifestParserProofs.

(** * Properties of the file digest check *)

Module FileHashVerifyProofs.
Import Mem Kernel FileHashVerify.

(* convert_hash_id tests the constants, not its argument. *)
Lemma convert_hash_id_constant C a b :
  convert_hash_id C a = convert_hash_id C b.
Proof. reflexivity. Qed.

(* With DIGEST_ALGO_MD5 equal to 0 and DIGEST_ALGO_SHA1 different from 0,
   every id is converted to HASH_ALGO_SHA1. *)
Lemma convert_hash_id_sha1 C id :
  DIGEST_ALGO_MD5 C = 0 -> DIGEST_ALGO_SHA1 C <> 0 ->
  convert_hash_id C id = HASH_ALGO_SHA1 C.
Proof.
  intros E0 E1. unfold convert_hash_id. rewrite E0. cbn [Z.eqb negb].
  apply Z.eqb_neq in E1. rewrite E1. reflexivity.
Qed.

(* With DIGEST_ALGO_MD5 different from 0, every id is converted to
   HASH_ALGO_MD5. *)
Lemma convert_hash_id_md5 C id :
  DIGEST_ALGO_MD5 C <> 0 -> convert_hash_id C id = HASH_ALGO_MD5 C.
Proof.
  intros E0. unfold convert_hash_id.
  apply Z.eqb_neq in E0. rewrite E0. reflexivity.
Qed.

(** C2: the digest id of the entry has no influence on compute_file_hash.
    For every kernel, file, recorded digest and pair of ids the two calls
    give the same result, because convert_hash_id returns the same kernel
    algorithm for every id: the file is hashed with that one algorithm and
    compared over that algorithm's digest size, whatever the entry
    declares. *)
Theorem compute_file_hash_ignores_digest_algo_id :
  forall C T (K : api T) M filename digest id1 id2,
    convert_hash_id C id1 = convert_hash_id C id2
    /\ compute_file_hash C T K M filename digest id1
       = compute_file_hash C T K M filename digest id2.
Proof.
  intros. split; reflexivity.
Qed.

(* The file holds "hello"; the entry records the digest the provider
   computes for it and declares SHA-512.  The check passes, and the
   algorithm used is SHA-1. *)
Example sha512_entry_checked_with_sha1 :
  let M := bytes ([104; 101; 108; 108; 111] ++ repeat 0 15) in
  convert_hash_id KernelExamples.linux
    (DIGEST_ALGO_SHA512 KernelExamples.linux)
  = HASH_ALGO_SHA1 KernelExamples.linux
  /\ compute_file_hash KernelExamples.linux KernelExamples.toy_types
       (KernelExamples.toy 0) M (bytes [104; 101; 108; 108; 111])
       (Some 0) (DIGEST_ALGO_SHA512 KernelExamples.linux)
     = Ok 0.
Proof.
  split; vm_compute; reflexivity.
Qed.



End FileHashVerifyProofs.

(** * Properties of the certificate and signature check *)

Module SignVerifyProofs.
Import Mem Kernel SignVerify.

Lemma verify_cert_validity_outside C T (K : api T) cert :
  getnstimeofday64 K < valid_from cert \/ valid_to cert < getnstimeofday64 K
  -> verify_cert_validity C T K cert = - EFAULT C.
Proof.
  intros Hw. unfold verify_cert_validity.
  replace ((getnstimeofday64 K <? valid_from cert)
           || (valid_to cert <? getnstimeofday64 K)) with true;
    [reflexivity|].
  symmetry. apply orb_true_iff.
  destruct Hw as [Hw|Hw]; [left | right]; apply Z.ltb_lt; exact Hw.
Qed.

(** C8: when the certificate parses, carries a public key and is accepted
    by the keyring check, and the clock reads a second before valid_from or
    after valid_to, verify_manifest returns -CERTIFICATE_EXPIRED.  The steps
    taken are the parse, the keyring check, the validity check and the
    release of the certificate: the digest of the data is not computed and
    the signature is not verified, so the answer is the same whether or not
    the signature is valid. *)
Theorem verify_manifest_certificate_expired :
  forall C T (K : api T) sig cert data sig_len cert_len data_len
         x509cert key,
    EFAULT C <> 0 ->
    x509_cert_parse K cert cert_len = Some x509cert ->
    pub x509cert = Some key ->
    verify_x509_cert_against_manifest_keyring K (sig_auth_ids_1 x509cert)
      (ATTESTATION_KEY_USAGE_BIT C) = 0 ->
    getnstimeofday64 K < valid_from x509cert
    \/ valid_to x509cert < getnstimeofday64 K ->
    let r := verify_manifest C T K sig cert data sig_len cert_len data_len in
    fst r = - CERTIFICATE_EXPIRED C
    /\ snd r = [Step_x509_cert_parse;
                Step_verify_x509_cert_against_manifest_keyring;
                Step_verify_cert_validity;
                Step_x509_free_certificate]
    /\ ~ In Step_calc_shash (snd r)
    /\ ~ In Step_verify_manifest_signature (snd r).
Proof.
  intros C T K sig cert data sig_len cert_len data_len x509cert key
         Hef Hparse Hpub Hring Hwin r.
  assert (E : r = (- CERTIFICATE_EXPIRED C,
                   [Step_x509_cert_parse;
                    Step_verify_x509_cert_against_manifest_keyring;
                    Step_verify_cert_validity;
                    Step_x509_free_certificate])).
  { subst r. unfold verify_manifest. rewrite Hparse, Hpub, Hring.
    cbn [Z.eqb negb].
    rewrite (verify_cert_validity_outside C T K x509cert Hwin).
    replace (- EFAULT C =? 0) with false
      by (symmetry; apply Z.eqb_neq; lia).
    reflexivity. }
  rewrite E. cbn [fst snd]. repeat split.
  - intros [X|[X|[X|[X|[]]]]]; discriminate X.
  - intros [X|[X|[X|[X|[]]]]]; discriminate X.
Qed.

Lemma verify_manifest_certificate_expired_witness :
  let r := verify_manifest KernelExamples.linux KernelExamples.toy_types
             (KernelExamples.toy 300) (Some []) [] (Some []) 0 0 0 in
  fst r = - 3
  /\ snd r = [Step_x509_cert_parse;
              Step_verify_x509_cert_against_manifest_keyring;
              Step_verify_cert_validity;
              Step_x509_free_certificate]
  /\ ~ In Step_calc_shash (snd r)
  /\ ~ In Step_verify_manifest_signature (snd r).
Proof.
  apply (verify_manifest_certificate_expired KernelExamples.linux
           KernelExamples.toy_types (KernelExamples.toy 300)
           (Some []) [] (Some []) 0 0 0 KernelExamples.toy_cert tt).
  - discriminate.
  - reflexivity.
  - reflexivity.
  - reflexivity.
  - right. reflexivity.
Defined.

(* The same manifest is accepted when the clock is inside the window. *)
Example verify_manifest_inside_window :
  verify_manifest KernelExamples.linux KernelExamples.toy_types
    (KernelExamples.toy 150) (Some []) [] (Some []) 0 0 0
  = (0, [Step_x509_cert_parse;
         Step_verify_x509_cert_against_manifest_keyring;
         Step_verify_cert_validity;
         Step_calc_shash;
         Step_verify_manifest_signature;
         Step_x509_free_certificate]).
Proof. vm_compute. reflexivity. Qed.

End SignVerifyProofs.

(** * Further properties of the manifest parser *)

Module ManifestParserMore.
Import Mem ManifestParser ManifestFormat EnvelopeFormat.
Import ManifestParserProofs.

(** ** Looking a chunk up in a well-formed envelope *)

Lemma suffix_at_prefix M a x y : suffix_at M a (x ++ y) -> suffix_at M a x.
Proof.
  intros [Ha [rest E]]. split; [exact Ha|]. exists (y ++ rest).
  now rewrite E, app_assoc.
Qed.

Lemma byte_split z :
  0 <= z < 65536 -> z mod 256 + 256 * ((z / 2 ^ 8) mod 256) = z.
Proof.
  intros Hz. change (2 ^ 8) with 256.
  rewrite (Z.mod_small (z / 256)).
  - pose proof (Z.div_mod z 256). lia.
  - split; [apply Z.div_pos; lia | apply Z.div_lt_upper_bound; lia].
Qed.

Lemma u8_byte_of_Z_mod z : u8 (byte_of_Z z) = z mod 256.
Proof.
  pose proof (Z.mod_pos_bound z 256 ltac:(lia)) as Hm.
  rewrite <- (u8_byte_of_Z (z mod 256) Hm). f_equal.
  unfold byte_of_Z. rewrite Z.mod_mod by lia. reflexivity.
Qed.

Lemma suffix_at_load16 M a z rest :
  0 <= z < 65536 ->
  suffix_at M a (le16 z ++ rest) -> load16 M a = Ok z.
Proof.
  intros Hz S0. unfold le16 in S0. cbn [app] in S0.
  destruct (suffix_at_cons _ _ _ _ S0) as [E0 S1].
  destruct (suffix_at_cons _ _ _ _ S1) as [E1 _].
  unfold load16. rewrite E0, E1. cbn [bind].
  rewrite !u8_byte_of_Z_mod. f_equal. apply byte_split. exact Hz.
Qed.

Lemma suffix_at_holds M a bs : suffix_at M a bs -> holds M a bs.
Proof.
  intros [Ha [rest E]]. split; [exact Ha|].
  rewrite E, firstn_app, Nat.sub_diag, firstn_all. cbn [firstn].
  apply app_nil_r.
Qed.

Lemma encode_chunk_length c :
  Z.of_nat (List.length (encode_chunk c)) = 3 + payload_len c.
Proof.
  unfold encode_chunk, payload_len. cbn [List.length le16 app]. lia.
Qed.

Lemma encode_chunks_cons c cs :
  encode_chunks (c :: cs) = encode_chunk c ++ encode_chunks cs.
Proof. reflexivity. Qed.

(* Header of the chunk at the head of a region of chunks. *)
Lemma chunk_header M a c rest :
  chunk_ok c ->
  suffix_at M a (encode_chunk c ++ rest) ->
  load8 M (chunk_type_of a) = Ok (ch_type c)
  /\ load16 M (chunk_len_of a) = Ok (payload_len c)
  /\ suffix_at M (chunk_data_of a) (ch_payload c ++ rest).
Proof.
  intros [Ht Hl] S0. unfold encode_chunk in S0. cbn [app] in S0.
  rewrite <- app_assoc in S0.
  destruct (suffix_at_cons _ _ _ _ S0) as [E0 S1].
  rewrite u8_byte_of_Z in E0 by exact Ht.
  assert (Hp : 0 <= payload_len c) by (unfold payload_len; lia).
  pose proof (suffix_at_load16 _ _ _ _ (conj Hp Hl) S1) as E1.
  apply suffix_at_app in S1. cbn [le16 List.length] in S1.
  unfold chunk_type_of, chunk_len_of, chunk_data_of.
  replace (a + 3) with (a + 1 + Z.of_nat 2) by lia.
  split; [|split]; assumption.
Qed.

Lemma mf_get_chunk_loop_finds M env t total :
  forall cs remaining pos,
    0 <= pos ->
    suffix_at M (env_data env + pos) (encode_chunks cs) ->
    Forall chunk_ok cs ->
    pos + Z.of_nat (List.length (encode_chunks cs)) = total ->
    total < 65536 ->
    mf_get_chunk_loop M env t total remaining pos
    = Ok (option_map (fun oc => env_data env + fst oc)
                     (find_chunk t remaining pos cs)).
Proof.
  induction cs as [|c cs IH]; intros remaining pos Hpos S0 Hok Htot Hlt.
  - cbn [encode_chunks map List.concat List.length] in Htot.
    destruct remaining; cbn [mf_get_chunk_loop find_chunk option_map];
      [reflexivity|].
    replace (pos <? total) with false by (symmetry; apply Z.ltb_ge; lia).
    reflexivity.
  - destruct remaining as [|remaining];
      cbn [mf_get_chunk_loop find_chunk option_map]; [reflexivity|].
    inversion Hok as [|c' cs' Hc Hcs]; subst c' cs'.
    rewrite encode_chunks_cons in S0, Htot.
    rewrite length_app, Nat2Z.inj_add, encode_chunk_length in Htot.
    assert (Hp : 0 <= payload_len c) by (unfold payload_len; lia).
    replace (pos <? total) with true by (symmetry; apply Z.ltb_lt; lia).
    destruct (chunk_header _ _ _ _ Hc S0) as (Et & El & _).
    rewrite Et. cbn [bind]. rewrite El. cbn [bind].
    destruct (ch_type c =? t) eqn:Ety.
    + replace (pos + payload_len c + 3 <=? total + 1) with true
        by (symmetry; apply Z.leb_le; lia).
      reflexivity.
    + assert (W : wrap16 (pos + payload_len c + 3) = pos + 3 + payload_len c)
        by (unfold wrap16; rewrite Z.mod_small; lia).
      rewrite W. apply IH; try assumption; try lia.
      apply suffix_at_app in S0. rewrite encode_chunk_length in S0.
      replace (env_data env + (pos + 3 + payload_len c))
        with (env_data env + pos + (3 + payload_len c)) by lia.
      exact S0.
Qed.

(* Where find_chunk finds a chunk, the blob holds that chunk. *)
Lemma find_chunk_suffix M base t :
  forall cs n pos off c,
    suffix_at M (base + pos) (encode_chunks cs) ->
    find_chunk t n pos cs = Some (off, c) ->
    suffix_at M (base + off) (encode_chunk c) /\ In c cs.
Proof.
  induction cs as [|c0 cs IH]; intros n pos off c S0 F.
  - destruct n; discriminate F.
  - destruct n as [|n]; [discriminate F|]. cbn [find_chunk] in F.
    rewrite encode_chunks_cons in S0.
    destruct (ch_type c0 =? t).
    + injection F as <- <-. split; [|now left].
      exact (suffix_at_prefix _ _ _ _ S0).
    + apply suffix_at_app in S0. rewrite encode_chunk_length in S0.
      destruct (IH n (pos + 3 + payload_len c0) off c) as [S1 Hin].
      * replace (base + (pos + 3 + payload_len c0))
          with (base + pos + (3 + payload_len c0)) by lia.
        exact S0.
      * exact F.
      * split; [exact S1 | now right].
Qed.

Lemma envelope_parts M env version cs :
  envelope_ok cs ->
  holds M env (encode_envelope version cs) ->
  load16 M (env_len env) = Ok (Z.of_nat (List.length (encode_chunks cs)))
  /\ suffix_at M (env_data env + 0) (encode_chunks cs).
Proof.
  intros [_ Hlt] Hh. apply holds_suffix_at in Hh.
  unfold encode_envelope in Hh.
  destruct (suffix_at_cons _ _ _ _ Hh) as [_ S1].
  split.
  - apply (suffix_at_load16 _ _ _ (encode_chunks cs)); [lia | exact S1].
  - apply suffix_at_app in S1. cbn [le16 List.length] in S1.
    unfold env_data. replace (env + 3 + 0) with (env + 1 + Z.of_nat 2) by lia.
    exact S1.
Qed.

(* The lookup of a present type, with the payload in the form the loads are
   computed from. *)
Lemma mf_get_chunk_data_finds_first_chunk_aux M env version cs t len0 off c :
  holds M env (encode_envelope version cs) ->
  envelope_ok cs ->
  find_chunk t MAX_CHUNKS 0 cs = Some (off, c) ->
  mf_get_chunk_data M (Some env) t (Some len0)
  = Ok (Some (env + 3 + off + 3), Some (payload_len c))
  /\ suffix_at M (env + 3 + off + 3) (ch_payload c).
Proof.
  intros Hh Hok F.
  destruct (envelope_parts _ _ _ _ Hok Hh) as [El S0].
  destruct Hok as [Hcs Hlt].
  assert (Hloop := mf_get_chunk_loop_finds M env t
                     (Z.of_nat (List.length (encode_chunks cs)))
                     cs MAX_CHUNKS 0 ltac:(lia) S0 Hcs eq_refl Hlt).
  rewrite F in Hloop. cbn [option_map fst] in Hloop.
  destruct (find_chunk_suffix M (env_data env) t cs _ _ _ _ S0 F)
    as [Sc Hin].
  rewrite <- (app_nil_r (encode_chunk c)) in Sc.
  assert (Hc : chunk_ok c) by (rewrite Forall_forall in Hcs; auto).
  destruct (chunk_header _ _ _ _ Hc Sc) as (_ & Elen & Sp).
  rewrite app_nil_r in Sp.
  unfold env_data, chunk_data_of in *. split.
  - unfold mf_get_chunk_data, mf_get_chunk. rewrite El. cbn [bind].
    unfold env_data. rewrite Hloop. cbn [bind]. rewrite Elen. cbn [bind].
    reflexivity.
  - exact Sp.
Qed.

(** X1: in a well-formed envelope (chunks packed one after the other, their
    total size in the envelope's length field), looking up a type whose
    first chunk is among the first ten chunks returns that chunk: the
    pointer is the address of its payload, the length is the payload's
    length, and the blob holds the payload there. *)
Theorem mf_get_chunk_data_finds_first_chunk :
  forall M env version cs t len0 off c,
    holds M env (encode_envelope version cs) ->
    envelope_ok cs ->
    find_chunk t MAX_CHUNKS 0 cs = Some (off, c) ->
    mf_get_chunk_data M (Some env) t (Some len0)
    = Ok (Some (env + 3 + off + 3), Some (payload_len c))
    /\ holds M (env + 3 + off + 3) (ch_payload c).
Proof.
  intros M env version cs t len0 off c Hh Hok F.
  destruct (mf_get_chunk_data_finds_first_chunk_aux M env version cs t len0
              off c Hh Hok F) as [E Sp].
  split; [exact E | apply suffix_at_holds; exact Sp].
Qed.

Lemma name_and_data_blob_ok :
  holds (encode_envelope 1 name_and_data) 0 (encode_envelope 1 name_and_data)
  /\ envelope_ok name_and_data.
Proof.
  split.
  - split; [lia | vm_compute; reflexivity].
  - split.
    + repeat constructor; vm_compute; congruence.
    + vm_compute. reflexivity.
Defined.

Lemma mf_get_chunk_data_finds_first_chunk_witness :
  mf_get_chunk_data (encode_envelope 1 name_and_data) (Some 0) 1 (Some 0)
  = Ok (Some (0 + 3 + 7 + 3), Some 81)
  /\ holds (encode_envelope 1 name_and_data) (0 + 3 + 7 + 3)
       (bytes [2; 0; 0; 0; 0; 0; 0; 4] ++ bytes [97; 112; 112; 0]
        ++ encode_entries Examples.two_files).
Proof.
  apply (mf_get_chunk_data_finds_first_chunk
           (encode_envelope 1 name_and_data) 0 1 name_and_data 1 0 7
           {| ch_type := 1;
              ch_payload :=
                bytes [2; 0; 0; 0; 0; 0; 0; 4] ++ bytes [97; 112; 112; 0]
                ++ encode_entries Examples.two_files |}
           (proj1 name_and_data_blob_ok) (proj2 name_and_data_blob_ok)).
  reflexivity.
Defined.

(** X2: in a well-formed envelope, a type that none of the first ten chunks
    carries is not found: the lookup returns NULL and sets the length to 0,
    even when a later chunk has the type. *)
Theorem mf_get_chunk_data_absent :
  forall M env version cs t len0,
    holds M env (encode_envelope version cs) ->
    envelope_ok cs ->
    find_chunk t MAX_CHUNKS 0 cs = None ->
    mf_get_chunk_data M (Some env) t (Some len0) = Ok (NULL, Some 0).
Proof.
  intros M env version cs t len0 Hh Hok F.
  destruct (envelope_parts _ _ _ _ Hok Hh) as [El S0].
  destruct Hok as [Hcs Hlt].
  assert (Hloop := mf_get_chunk_loop_finds M env t
                     (Z.of_nat (List.length (encode_chunks cs)))
                     cs MAX_CHUNKS 0 ltac:(lia) S0 Hcs eq_refl Hlt).
  rewrite F in Hloop. cbn [option_map] in Hloop.
  unfold mf_get_chunk_data, mf_get_chunk. rewrite El. cbn [bind].
  rewrite Hloop. reflexivity.
Qed.

Lemma mf_get_chunk_data_absent_witness :
  In {| ch_type := 7; ch_payload := bytes [1; 2; 3] |} eleven_chunks
  /\ mf_get_chunk_data (encode_envelope 1 eleven_chunks) (Some 0) 7 (Some 5)
     = Ok (NULL, Some 0).
Proof.
  split.
  - apply in_or_app. right. now left.
  - apply (mf_get_chunk_data_absent (encode_envelope 1 eleven_chunks) 0 1
             eleven_chunks 7 5).
    + split; [lia | vm_compute; reflexivity].
    + split.
      * repeat constructor; vm_compute; congruence.
      * vm_compute. reflexivity.
    + reflexivity.
Defined.

(** ** What a lookup guarantees on an arbitrary blob *)

Lemma mf_get_chunk_data_inv M mf t len0 d l :
  mf_get_chunk_data M mf t (Some len0) = Ok (Some d, Some l) ->
  exists c,
    mf_get_chunk M mf t = Ok (Some c)
    /\ d = chunk_data_of c
    /\ load16 M (chunk_len_of c) = Ok l.
Proof.
  unfold mf_get_chunk_data.
  destruct (mf_get_chunk M mf t) as [[c|]|]; cbn [bind]; try discriminate.
  destruct (load16 M (chunk_len_of c)) as [l'|] eqn:E; cbn [bind];
    [|discriminate].
  intros X. exists c. repeat split; congruence.
Qed.

(** X3: whatever the blob contains, a view returned by mf_get_chunk_data
    belongs to a chunk of the requested type whose header starts inside the
    declared length of the envelope, and the view ends at most one byte past
    the declared end of the chunk area (never further). *)
Theorem mf_get_chunk_data_view_bound :
  forall M env t len0 d l,
    mf_get_chunk_data M (Some env) t (Some len0) = Ok (Some d, Some l) ->
    exists len,
      load16 M (env_len env) = Ok len
      /\ load8 M (d - 3) = Ok t
      /\ env_data env + 3 <= d < env_data env + len + 3
      /\ 0 <= l
      /\ d + l <= env_data env + len + 1.
Proof.
  intros M env t len0 d l E.
  destruct (mf_get_chunk_data_inv _ _ _ _ _ _ E) as (c & Ec & -> & El).
  destruct (mf_get_chunk_bound _ _ _ _ Ec)
    as (len & p & clen & Elen & -> & Hp & Et & El' & Hb).
  assert (clen = l) as -> by congruence.
  pose proof (load16_range _ _ _ El) as Hl.
  pose proof (load16_range _ _ _ Elen) as Hlen.
  exists len. unfold chunk_data_of, chunk_type_of in *.
  replace (env_data env + p + 3 - 3) with (env_data env + p) by lia.
  assert (0 <= p).
  { (* the loop starts at 0 and adds wrapped, non-negative offsets *)
    destruct (Z.neg_nonneg_cases p) as [Hneg|]; [|assumption].
    exfalso. revert Ec. unfold mf_get_chunk. rewrite Elen. cbn [bind].
    intros Ec. clear - Ec Hneg Hlen.
    assert (G : forall remaining pos c,
               0 <= pos ->
               mf_get_chunk_loop M env t len remaining pos = Ok (Some c) ->
               env_data env <= c).
    { induction remaining as [|r IH]; intros pos c Hpos;
        cbn [mf_get_chunk_loop]; [discriminate|].
      destruct (pos <? len); [|discriminate].
      destruct (load8 M _); cbn [bind]; [|discriminate].
      destruct (load16 M _) as [cl|]; cbn [bind]; [|discriminate].
      destruct (_ =? _).
      - destruct (_ <=? _); [|discriminate]. intros X.
        assert (c = env_data env + pos) by congruence. lia.
      - apply IH. unfold wrap16. apply Z.mod_pos_bound. lia. }
    specialize (G MAX_CHUNKS 0 _ ltac:(lia) Ec). lia. }
  repeat split; try assumption; lia.
Qed.

Lemma mf_get_chunk_data_view_bound_witness :
  exists len,
    load16 Examples.overrun_blob (env_len 0) = Ok len
    /\ load8 Examples.overrun_blob (6 - 3) = Ok 7
    /\ env_data 0 + 3 <= 6 < env_data 0 + len + 3
    /\ 0 <= 1
    /\ 6 + 1 <= env_data 0 + len + 1.
Proof.
  apply (mf_get_chunk_data_view_bound Examples.overrun_blob 0 7 0 6 1).
  reflexivity.
Defined.

(** ** The manifest name *)

(** X4: a name returned by mf_get_name is the payload of a NAME chunk that
    mf_get_chunk_data finds, shorter than 256 bytes, whose first NUL is its
    last byte: the C string at the returned address has exactly the chunk's
    length minus one characters. *)
Theorem mf_get_name_sound :
  forall H M mf d,
    mf_get_name H M mf = Ok (Some d) ->
    exists len,
      mf_get_chunk_data M mf (TYPE_MANIFEST_NAME H) (Some 0)
      = Ok (Some d, Some len)
      /\ len < 256
      /\ strlen M d = Ok (len - 1).
Proof.
  intros H M mf d. unfold mf_get_name.
  destruct (mf_get_chunk_data M mf (TYPE_MANIFEST_NAME H) (Some 0))
    as [[[data|] cell]|] eqn:E; cbn [bind fst snd]; try discriminate.
  destruct (deref cell <? 256) eqn:Hlt; [|discriminate].
  destruct (strlen M data) as [n|] eqn:Es; cbn [bind]; [|discriminate].
  destruct (n + 1 =? deref cell) eqn:Hn; [|discriminate].
  intros X. assert (data = d) as -> by congruence.
  apply Z.ltb_lt in Hlt. apply Z.eqb_eq in Hn.
  assert (Hc : cell = Some (deref cell)).
  { revert E. unfold mf_get_chunk_data.
    destruct (mf_get_chunk M mf _) as [[c|]|]; cbn [bind]; try discriminate.
    destruct (load16 M _); cbn [bind]; [|discriminate].
    intros Y. injection Y as _ <-. reflexivity. }
  exists (deref cell). rewrite <- Hc. repeat split; try assumption.
  rewrite Es. f_equal. lia.
Qed.

(** X5: in a well-formed envelope whose first NAME chunk, among the first
    ten chunks, holds a name without NUL followed by one NUL, in fewer than
    256 bytes, mf_get_name returns the address of that payload. *)
Theorem mf_get_name_finds_name :
  forall H M env version cs off c name,
    holds M env (encode_envelope version cs) ->
    envelope_ok cs ->
    find_chunk (TYPE_MANIFEST_NAME H) MAX_CHUNKS 0 cs = Some (off, c) ->
    ch_payload c = name ++ [x00] ->
    Forall (fun b => b <> x00) name ->
    payload_len c < 256 ->
    mf_get_name H M (Some env) = Ok (Some (env + 3 + off + 3)).
Proof.
  intros H M env version cs off c name Hh Hok F Hpay Hname Hlen.
  destruct (mf_get_chunk_data_finds_first_chunk_aux M env version cs
              (TYPE_MANIFEST_NAME H) 0 off c Hh Hok F) as [E Sp].
  unfold mf_get_name. rewrite E. cbn [bind fst snd deref].
  replace (payload_len c <? 256) with true
    by (symmetry; apply Z.ltb_lt; exact Hlen).
  rewrite Hpay in Sp.
  rewrite (suffix_at_strlen _ _ _ _ Sp Hname). cbn [bind].
  replace (Z.of_nat (List.length name) + 1 =? payload_len c) with true;
    [reflexivity|].
  symmetry. apply Z.eqb_eq. unfold payload_len. rewrite Hpay, length_app.
  cbn [List.length]. lia.
Qed.

Lemma mf_get_name_finds_name_witness :
  mf_get_name Examples.header (encode_envelope 1 name_and_data) (Some 0)
  = Ok (Some (0 + 3 + 0 + 3)).
Proof.
  apply (mf_get_name_finds_name Examples.header
           (encode_envelope 1 name_and_data) 0 1 name_and_data 0
           {| ch_type := 0; ch_payload := bytes [97; 112; 112; 0] |}
           (bytes [97; 112; 112])
           (proj1 name_and_data_blob_ok) (proj2 name_and_data_blob_ok)).
  - reflexivity.
  - reflexivity.
  - repeat constructor; vm_compute; discriminate.
  - vm_compute. reflexivity.
Defined.

Lemma mf_get_name_sound_witness :
  exists len,
    mf_get_chunk_data (encode_envelope 1 name_and_data) (Some 0)
      (TYPE_MANIFEST_NAME Examples.header) (Some 0)
    = Ok (Some 6, Some len)
    /\ len < 256
    /\ strlen (encode_envelope 1 name_and_data) 6 = Ok (len - 1).
Proof.
  apply (mf_get_name_sound Examples.header
           (encode_envelope 1 name_and_data) (Some 0) 6).
  reflexivity.
Defined.

(** ** What a successful call of the iterator has done *)

Lemma strlen_bytes_nonneg l n : strlen_bytes l = Some n -> 0 <= n.
Proof.
  revert n. induction l as [|b l IH]; intros n; cbn [strlen_bytes].
  - discriminate.
  - destruct (Byte.eqb b x00).
    + intros [= <-]. lia.
    + destruct (strlen_bytes l) as [m|]; cbn [option_map]; [|discriminate].
      intros [= <-]. specialize (IH m eq_refl). lia.
Qed.

Lemma strlen_nonneg M a n : strlen M a = Ok n -> 0 <= n.
Proof.
  unfold strlen. destruct (a <? 0); [discriminate|].
  destruct (strlen_bytes _) as [m|] eqn:E; [|discriminate].
  intros X. assert (m = n) as <- by congruence.
  exact (strlen_bytes_nonneg _ _ E).
Qed.

Lemma digest_len_range algo :
  0 <= algo < 5 -> 20 <= nth (Z.to_nat algo) digest_len 0 <= 64.
Proof.
  intros Ha.
  assert (algo = 0 \/ algo = 1 \/ algo = 2 \/ algo = 3 \/ algo = 4) as D
    by lia.
  destruct D as [-> | [-> | [-> | [-> | ->]]]]; vm_compute;
    split; intro X; discriminate X.
Qed.

(** X6: when mf_get_next_file returns a file name, the guard held (both
    counters above zero), the name starts one byte after the old cursor and
    its NUL is at offset name_len - 1, the digest id is below 5, the outputs
    hold the size, the id and the address of the digest, num_files_left has
    gone down by one and the cursor has moved by
    entry_size = 1 + name_len + 4 + 1 + digest_len[id], which lies between 27
    and 325; bytes_left is the old value minus entry_size modulo 2^64. *)
Theorem mf_get_next_file_success :
  forall EFAULT M mf c out a ctx' out',
    mf_get_next_file EFAULT M mf (Some c) out = Ok (PAddr a, ctx', out') ->
    exists nf filenamelen sz algo,
      let entry_size :=
        1 + filenamelen + 4 + 1 + nth (Z.to_nat algo) digest_len 0 in
      next_file c = Some nf
      /\ a = nf + 1
      /\ 0 < num_files_left c
      /\ 0 < bytes_left c
      /\ load8 M nf = Ok filenamelen
      /\ strlen M a = Ok (filenamelen - 1)
      /\ load32 M (nf + filenamelen + 1) = Ok sz
      /\ load8 M (nf + filenamelen + 5) = Ok algo
      /\ 0 <= algo < 5
      /\ 27 <= entry_size <= 325
      /\ ctx' = Some {| num_files_left := num_files_left c - 1;
                        bytes_left := wrap64 (bytes_left c - entry_size);
                        next_file := Some (nf + entry_size) |}
      /\ out' = {| digest_algo_id := Some algo;
                   digest := Some (Some (nf + filenamelen + 6));
                   size := Some sz |}.
Proof.
  intros EFAULT M mf c out a ctx' out'. unfold mf_get_next_file.
  destruct (next_file c) as [nf|] eqn:Enf; [|discriminate].
  destruct (0 <? num_files_left c) eqn:Hn; cbn [andb]; [|discriminate].
  destruct (0 <? bytes_left c) eqn:Hb; cbn [andb]; [|discriminate].
  destruct (negb (is_null (digest_algo_id out)) && negb (is_null (digest out)));
    [|discriminate].
  destruct (load8 M nf) as [fl|] eqn:E8; cbn [bind]; [|discriminate].
  destruct (strlen M (nf + 1)) as [n|] eqn:Es; cbn [bind]; [|discriminate].
  destruct (n + 1 =? fl) eqn:Hfl; [|discriminate].
  destruct (load32 M (nf + fl + 1)) as [sz|] eqn:E32; cbn [bind];
    [|discriminate].
  destruct (size out) as [s0|]; cbn [store bind]; [|discriminate].
  destruct (load8 M (nf + fl + 5)) as [algo|] eqn:Ea; cbn [bind];
    [|discriminate].
  destruct (sizeof_digest_len <=? algo) eqn:Hal; [discriminate|].
  intros X.
  apply Z.ltb_lt in Hn. apply Z.ltb_lt in Hb. apply Z.eqb_eq in Hfl.
  apply Z.leb_gt in Hal. change sizeof_digest_len with 5 in Hal.
  pose proof (load8_range _ _ _ Ea) as Hra.
  pose proof (load8_range _ _ _ E8) as Hrf.
  pose proof (strlen_nonneg _ _ _ Es) as Hn0.
  pose proof (digest_len_range algo ltac:(lia)) as Hd.
  exists nf, fl, sz, algo. cbn zeta.
  assert (a = nf + 1) as -> by congruence.
  replace (fl - 1) with n by lia.
  replace (1 + fl + 4 + 1) with (1 + fl + 5) by lia.
  repeat split; try assumption; try lia; congruence.
Qed.

Lemma mf_get_next_file_success_witness :
  exists nf filenamelen sz algo,
    let entry_size :=
      1 + filenamelen + 4 + 1 + nth (Z.to_nat algo) digest_len 0 in
    next_file Examples.partial_entry_ctx = Some nf
    /\ 1 = nf + 1
    /\ 0 < num_files_left Examples.partial_entry_ctx
    /\ 0 < bytes_left Examples.partial_entry_ctx
    /\ load8 Examples.partial_entry_blob nf = Ok filenamelen
    /\ strlen Examples.partial_entry_blob 1 = Ok (filenamelen - 1)
    /\ load32 Examples.partial_entry_blob (nf + filenamelen + 1) = Ok sz
    /\ load8 Examples.partial_entry_blob (nf + filenamelen + 5) = Ok algo
    /\ 0 <= algo < 5
    /\ 27 <= entry_size <= 325
    /\ Some {| num_files_left := 0; bytes_left := 2 ^ 64 - 17;
               next_file := Some 28 |}
       = Some {| num_files_left :=
                   num_files_left Examples.partial_entry_ctx - 1;
                 bytes_left :=
                   wrap64 (bytes_left Examples.partial_entry_ctx
                           - entry_size);
                 next_file := Some (nf + entry_size) |}
    /\ {| digest_algo_id := Some 0; digest := Some (Some 8);
          size := Some 100 |}
       = {| digest_algo_id := Some algo;
            digest := Some (Some (nf + filenamelen + 6));
            size := Some sz |}.
Proof.
  apply (mf_get_next_file_success Examples.EFAULT Examples.partial_entry_blob
           None Examples.partial_entry_ctx Examples.out0 1).
  vm_compute. reflexivity.
Defined.

(** ** Sequences of calls *)

Lemma mf_get_next_file_step EFAULT M mf c out p ctx' out' :
  mf_get_next_file EFAULT M mf (Some c) out = Ok (p, ctx', out') ->
  exists c',
    ctx' = Some c'
    /\ ((exists a, p = PAddr a)
        /\ 0 < num_files_left c
        /\ num_files_left c' = num_files_left c - 1
        \/ (forall a, p <> PAddr a) /\ c' = c).
Proof.
  unfold mf_get_next_file.
  destruct (next_file c) as [nf|];
    [|intros [= <- <- <-]; exists c; split; [reflexivity|right];
      split; [discriminate|reflexivity]].
  destruct (0 <? num_files_left c) eqn:Hn; cbn [andb];
    [|intros [= <- <- <-]; exists c; split; [reflexivity|right];
      split; [discriminate|reflexivity]].
  apply Z.ltb_lt in Hn.
  destruct (_ && _);
    [|intros [= <- <- <-]; exists c; split; [reflexivity|right];
      split; [discriminate|reflexivity]].
  repeat (destr_result; try (intros X; discriminate X)).
  all: destruct (_ =? _); try (intros X; discriminate X).
  all: try destruct (_ <=? _); intros [= <- <- <-]; eexists;
    (split; [reflexivity|]);
    try (right; split; [discriminate|reflexivity]).
  left. split; [eexists; reflexivity|]. split; [exact Hn|reflexivity].
Qed.

(** X7: over any number of successive calls on an iterator whose
    num_files_left is not negative, num_files_left goes down by exactly the
    number of file names returned and stays non-negative: the calls never
    return more names than num_files_left announced. *)
Theorem names_returned_bounded_by_num_files_left :
  forall EFAULT M mf n c out ps ctx' out',
    0 <= num_files_left c ->
    mf_get_next_file_n EFAULT M mf n (Some c) out = Ok (ps, ctx', out') ->
    exists c',
      ctx' = Some c'
      /\ num_files_left c' = num_files_left c - count_names ps
      /\ 0 <= num_files_left c'
      /\ count_names ps <= num_files_left c.
Proof.
  intros EFAULT M mf n. induction n as [|n IH];
    intros c out ps ctx' out' Hc; cbn [mf_get_next_file_n].
  - intros [= <- <- <-]. exists c. cbn [count_names].
    repeat split; try reflexivity; lia.
  - destruct (mf_get_next_file EFAULT M mf (Some c) out)
      as [[[p ctx1] out1]|] eqn:E1; cbn [bind]; [|discriminate].
    destruct (mf_get_next_file_step _ _ _ _ _ _ _ _ E1) as (c1 & -> & D).
    destruct (mf_get_next_file_n EFAULT M mf n (Some c1) out1)
      as [[[ps1 ctx2] out2]|] eqn:E2; cbn [bind]; [|discriminate].
    intros [= <- <- <-].
    assert (Hc1 : 0 <= num_files_left c1)
      by (destruct D as [(_ & Hp & Hd) | (_ & ->)]; lia).
    destruct (IH c1 out1 ps1 ctx2 out2 Hc1 E2) as (c' & -> & Hn & H0 & Hle).
    exists c'. split; [reflexivity|].
    destruct D as [([a ->] & Hp & Hd) | (Hp & ->)].
    + cbn [count_names]. repeat split; lia.
    + assert (count_names (p :: ps1) = count_names ps1) as ->.
      { destruct p as [| |a]; try reflexivity. now destruct (Hp a). }
      repeat split; lia.
Qed.

Lemma names_returned_bounded_by_num_files_left_witness :
  exists c',
    Some {| num_files_left := 0; bytes_left := 0; next_file := Some 94 |}
    = Some c'
    /\ num_files_left c' = 2 - count_names [PAddr 26; PAddr 54; PNull]
    /\ 0 <= num_files_left c'
    /\ count_names [PAddr 26; PAddr 54; PNull] <= 2.
Proof.
  apply (names_returned_bounded_by_num_files_left Examples.EFAULT
           Examples.two_files_blob (Some 0) 3
           {| num_files_left := 2; bytes_left := 69; next_file := Some 25 |}
           Examples.out0 [PAddr 26; PAddr 54; PNull] _
           {| digest_algo_id := Some 2; digest := Some (Some 62);
              size := Some 7 |}).
  - cbn. lia.
  - vm_compute. reflexivity.
Defined.

(** X8: a call that does not return a file name is final: the same call
    repeated on the iterator and the outputs it left returns the same
    pointer again and changes nothing, so an iterator that has returned NULL
    or the error pointer never yields another file. *)
Theorem mf_get_next_file_failure_is_final :
  forall EFAULT M mf ctx out p ctx' out',
    mf_get_next_file EFAULT M mf ctx out = Ok (p, ctx', out') ->
    (forall a, p <> PAddr a) ->
    mf_get_next_file EFAULT M mf ctx' out' = Ok (p, ctx', out').
Proof.
  intros EFAULT M mf ctx out p ctx' out' E Hp.
  destruct ctx as [c|]; [|cbn in E; injection E as <- <- <-; reflexivity].
  revert E. unfold mf_get_next_file at 1.
  destruct (next_file c) as [nf|] eqn:Enf;
    [|intros [= <- <- <-]; unfold mf_get_next_file; now rewrite Enf].
  destruct ((0 <? num_files_left c) && (0 <? bytes_left c)
            && negb (is_null (digest_algo_id out))
            && negb (is_null (digest out))) eqn:G;
    [|intros [= <- <- <-]; unfold mf_get_next_file; now rewrite Enf, G].
  destruct (load8 M nf) as [fl|] eqn:E8; cbn [bind]; [|discriminate].
  destruct (strlen M (nf + 1)) as [n|] eqn:Es; cbn [bind]; [|discriminate].
  destruct (n + 1 =? fl) eqn:Hfl.
  - destruct (load32 M (nf + fl + 1)) as [sz|] eqn:E32; cbn [bind];
      [|discriminate].
    destruct (size out) as [s0|]; cbn [store bind]; [|discriminate].
    destruct (load8 M (nf + fl + 5)) as [algo|] eqn:Ea; cbn [bind];
      [|discriminate].
    destruct (sizeof_digest_len <=? algo) eqn:Hal.
    + intros [= <- <- <-]. unfold mf_get_next_file. rewrite Enf.
      apply andb_prop in G. destruct G as [G _].
      apply andb_prop in G. destruct G as [G _]. rewrite G.
      cbn [digest_algo_id digest is_null negb andb].
      rewrite E8. cbn [bind]. rewrite Es. cbn [bind]. rewrite Hfl, E32.
      cbn [bind size store]. rewrite Ea. cbn [bind]. rewrite Hal.
      reflexivity.
    + intros [= <- <- <-]. now destruct (Hp (nf + 1)).
  - intros [= <- <- <-]. unfold mf_get_next_file.
    rewrite Enf, G, E8. cbn [bind]. rewrite Es. cbn [bind]. rewrite Hfl.
    reflexivity.
Qed.

Lemma mf_get_next_file_failure_is_final_witness :
  mf_get_next_file Examples.EFAULT Examples.bad_first_blob None
    (Some Examples.bad_first_ctx)
    {| digest_algo_id := Some 9; digest := Some (Some 8);
       size := Some 100 |}
  = Ok (PNull, Some Examples.bad_first_ctx,
        {| digest_algo_id := Some 9; digest := Some (Some 8);
           size := Some 100 |}).
Proof.
  apply (mf_get_next_file_failure_is_final Examples.EFAULT
           Examples.bad_first_blob None (Some Examples.bad_first_ctx)
           Examples.out0).
  - vm_compute. reflexivity.
  - discriminate.
Defined.

(** ** What mf_init_file_list_ctx does not check *)

(** X9: when the blob has no DATA chunk that mf_get_chunk accepts,
    mf_init_file_list_ctx returns 0 and leaves the caller's iterator exactly
    as it was (it is not cleared); when the DATA chunk is shorter than the 8
    header bytes plus app_name_len, the call still succeeds and bytes_left
    wraps around to 2^64 + len - 8 - app_name_len, at least 2^64 - 263. *)
Theorem mf_init_file_list_ctx_unchecked :
  forall H M mf c,
    (mf_get_chunk M mf (TYPE_MANIFEST_DATA H) = Ok NULL ->
     mf_init_file_list_ctx H M mf (Some c) = Ok (0, Some c))
    /\ (forall data len num_files app_name_len,
           mf_get_chunk_data M mf (TYPE_MANIFEST_DATA H) (Some 0)
           = Ok (Some data, Some len) ->
           load_le M (data + num_files_off H) (num_files_width H)
           = Ok num_files ->
           load8 M (data + app_name_len_off H) = Ok app_name_len ->
           len < 8 + app_name_len ->
           exists c',
             mf_init_file_list_ctx H M mf (Some c)
             = Ok (to_int (wrap32 num_files), Some c')
             /\ num_files_left c' = wrap32 num_files
             /\ bytes_left c' = 2 ^ 64 + len - 8 - app_name_len
             /\ 2 ^ 64 - 263 <= bytes_left c').
Proof.
  intros H M mf c. split.
  - intros E. unfold mf_init_file_list_ctx, mf_get_chunk_data. rewrite E.
    reflexivity.
  - intros data len num_files app_name_len Ecd Enf Eanl Hshort.
    pose proof (mf_get_chunk_data_len_range _ _ _ _ _ _ Ecd) as Hl.
    pose proof (load8_range _ _ _ Eanl) as Ha.
    unfold mf_init_file_list_ctx. rewrite Ecd. cbn [bind fst snd deref].
    rewrite Enf. cbn [bind]. rewrite Eanl. cbn [bind num_files_left].
    eexists. split; [reflexivity|]. cbn [num_files_left bytes_left].
    assert (W : wrap64 (len - 8 - app_name_len)
                = 2 ^ 64 + len - 8 - app_name_len).
    { unfold wrap64.
      replace (len - 8 - app_name_len)
        with ((2 ^ 64 + len - 8 - app_name_len) + (-1) * 2 ^ 64) by lia.
      rewrite Z.mod_add by lia. apply Z.mod_small. lia. }
    rewrite W. repeat split; lia.
Qed.

Lemma mf_init_file_list_ctx_unchecked_witness :
  (mf_init_file_list_ctx Examples.header Examples.overrun_blob (Some 0)
     (Some Examples.bad_first_ctx)
   = Ok (0, Some Examples.bad_first_ctx))
  /\ exists c',
       mf_init_file_list_ctx Examples.header (encode_envelope 1 short_data)
         (Some 0) (Some Examples.zero_ctx)
       = Ok (to_int (wrap32 1), Some c')
       /\ num_files_left c' = wrap32 1
       /\ bytes_left c' = 2 ^ 64 + 8 - 8 - 4
       /\ 2 ^ 64 - 263 <= bytes_left c'.
Proof.
  split.
  - apply (proj1 (mf_init_file_list_ctx_unchecked Examples.header
                    Examples.overrun_blob (Some 0) Examples.bad_first_ctx)).
    reflexivity.
  - apply (proj2 (mf_init_file_list_ctx_unchecked Examples.header
                    (encode_envelope 1 short_data) (Some 0)
                    Examples.zero_ctx) 6 8 1 4).
    + reflexivity.
    + reflexivity.
    + vm_compute. reflexivity.
    + lia.
Defined.

(** ** The application name and the start of the file list *)

Lemma strlen_bytes_nul l n :
  strlen_bytes l = Some n -> nth_error l (Z.to_nat n) = Some x00.
Proof.
  revert n. induction l as [|b l IH]; intros n; cbn [strlen_bytes].
  - discriminate.
  - destruct (Byte.eqb b x00) eqn:Eb.
    + intros [= <-]. apply Byte.byte_dec_bl in Eb. now subst b.
    + destruct (strlen_bytes l) as [m|] eqn:E; cbn [option_map];
        [|discriminate].
      intros [= <-]. pose proof (strlen_bytes_nonneg _ _ E) as Hm.
      replace (Z.to_nat (Z.succ m)) with (S (Z.to_nat m)) by lia.
      cbn [nth_error]. now apply IH.
Qed.

Lemma strlen_nul M a n : strlen M a = Ok n -> load8 M (a + n) = Ok 0.
Proof.
  unfold strlen. destruct (a <? 0) eqn:Ha; [discriminate|].
  destruct (strlen_bytes _) as [m|] eqn:E; [|discriminate].
  intros X. assert (m = n) as <- by congruence.
  pose proof (strlen_bytes_nonneg _ _ E) as Hm. apply Z.ltb_ge in Ha.
  apply strlen_bytes_nul in E. rewrite nth_error_skipn in E.
  unfold load8.
  replace (a + m <? 0) with false by (symmetry; apply Z.ltb_ge; lia).
  replace (Z.to_nat (a + m)) with (Z.to_nat a + Z.to_nat m)%nat by lia.
  rewrite E. reflexivity.
Qed.

(** X20: when mf_get_app_data accepts the DATA chunk, the application name
    is a C string of app_name_len - 1 characters, and mf_init_file_list_ctx,
    once the num_files field can be read, succeeds on the same blob with its
    cursor right behind the name: the byte before the cursor is the NUL that
    ends the name. *)
Theorem mf_get_app_data_then_init :
  forall H M mf data c num_files,
    mf_get_app_data H M mf = Ok (Some data) ->
    load_le M (data + num_files_off H) (num_files_width H) = Ok num_files ->
    exists len app_name_len c',
      mf_get_chunk_data M mf (TYPE_MANIFEST_DATA H) (Some 0)
      = Ok (Some data, Some len)
      /\ load8 M (data + app_name_len_off H) = Ok app_name_len
      /\ strlen M (data + app_name_off H) = Ok (app_name_len - 1)
      /\ mf_init_file_list_ctx H M mf (Some c)
         = Ok (to_int (wrap32 num_files), Some c')
      /\ next_file c' = Some (data + app_name_off H + app_name_len)
      /\ load8 M (data + app_name_off H + app_name_len - 1) = Ok 0.
Proof.
  intros H M mf data c num_files. unfold mf_get_app_data.
  destruct (mf_get_chunk_data M mf (TYPE_MANIFEST_DATA H) (Some 0))
    as [[[d|] cell]|] eqn:E; cbn [bind fst snd]; try discriminate.
  destruct (strlen M (d + app_name_off H)) as [n|] eqn:Es; cbn [bind];
    [|discriminate].
  destruct (load8 M (d + app_name_len_off H)) as [anl|] eqn:Ea; cbn [bind];
    [|discriminate].
  destruct (n + 1 =? anl) eqn:Hn; [|discriminate].
  intros X Enf. assert (d = data) as -> by congruence.
  apply Z.eqb_eq in Hn.
  assert (Hc : cell = Some (deref cell)).
  { revert E. unfold mf_get_chunk_data.
    destruct (mf_get_chunk M mf _) as [[ch|]|]; cbn [bind]; try discriminate.
    destruct (load16 M _); cbn [bind]; [|discriminate].
    intros Y. injection Y as _ <-. reflexivity. }
  exists (deref cell), anl. eexists.
  split; [rewrite <- Hc; reflexivity|]. split; [exact Ea|].
  split; [rewrite Es; f_equal; lia|].
  split.
  - unfold mf_init_file_list_ctx. rewrite E. cbn [bind fst snd].
    rewrite Enf. cbn [bind]. rewrite Ea. cbn [bind num_files_left].
    reflexivity.
  - cbn [next_file]. split; [reflexivity|].
    replace (data + app_name_off H + anl - 1)
      with (data + app_name_off H + n) by lia.
    now apply strlen_nul.
Qed.

Lemma mf_get_app_data_then_init_witness :
  exists len app_name_len c',
    mf_get_chunk_data Examples.two_files_blob (Some 0)
      (TYPE_MANIFEST_DATA Examples.header) (Some 0)
    = Ok (Some 13, Some len)
    /\ load8 Examples.two_files_blob (13 + app_name_len_off Examples.header)
       = Ok app_name_len
    /\ strlen Examples.two_files_blob (13 + app_name_off Examples.header)
       = Ok (app_name_len - 1)
    /\ mf_init_file_list_ctx Examples.header Examples.two_files_blob (Some 0)
         (Some Examples.zero_ctx)
       = Ok (to_int (wrap32 2), Some c')
    /\ next_file c'
       = Some (13 + app_name_off Examples.header + app_name_len)
    /\ load8 Examples.two_files_blob
         (13 + app_name_off Examples.header + app_name_len - 1)
       = Ok 0.
Proof.
  apply (mf_get_app_data_then_init Examples.header Examples.two_files_blob
           (Some 0) 13 Examples.zero_ctx 2).
  - vm_compute. reflexivity.
  - vm_compute. reflexivity.
Defined.

End ManifestParserMore.

(** * Further properties of the file digest *)

Module FileHashVerifyMore.
Import Mem Kernel FileHashVerify DigestFormat.

(** ** The read mode of the file *)

Lemma ldiff_lor_disjoint m r : Z.land m r = 0 -> Z.ldiff (Z.lor m r) r = m.
Proof.
  intros E. apply Z.bits_inj'. intros n Hn.
  rewrite Z.ldiff_spec, Z.lor_spec.
  assert (B : Z.testbit (Z.land m r) n = false)
    by (rewrite E; apply Z.bits_0).
  rewrite Z.land_spec in B.
  destruct (Z.testbit m n), (Z.testbit r n); cbn in *; congruence.
Qed.

Lemma calc_file_hash_out_result C T (K : api T) rc shash hash r h :
  calc_file_hash_out C T K rc shash hash = (r, h) ->
  r = 0 \/ r = - HASH_FAILURE C.
Proof.
  unfold calc_file_hash_out. destruct (rc =? 0).
  - destruct (crypto_shash_final K shash) as [rc' d].
    destruct (rc' =? 0) eqn:E; intros [= <- <-]; [left|right; reflexivity].
    apply Z.eqb_eq. exact E.
  - intros [= <- <-]. now right.
Qed.

Lemma calc_file_hash_tfm_shape C T (K : api T) file hash tfm r file' hash' :
  appauth_calc_file_hash_tfm C T K file hash tfm = (r, file', hash') ->
  file' = file /\ hash_result C r.
Proof.
  unfold appauth_calc_file_hash_tfm.
  destruct file as [f|], hash as [h|];
    try (intros [= <- <- <-]; split; [reflexivity | right; now left]).
  destruct tfm as [t|];
    [|intros [= <- <- <-]; split; [reflexivity | right; now left]].
  destruct (crypto_shash_init K t) as [rc shash].
  destruct (negb (rc =? 0));
    [intros [= <- <- <-]; split; [reflexivity | now do 3 right]|].
  destruct (i_size_read K (f_inode f) =? 0).
  - destruct (calc_file_hash_out C T K rc shash _) as [r0 h2] eqn:Eo.
    intros [= <- <- <-]. split; [reflexivity|].
    destruct (calc_file_hash_out_result _ _ _ _ _ _ _ _ Eo) as [-> | ->];
      [now left | now do 3 right].
  - destruct (negb (kzalloc_succeeds K));
      [intros [= <- <- <-]; split; [reflexivity | do 2 right; now left]|].
    destruct (read_loop C T K _ _ _ _ _ _) as [rc' shash'].
    destruct (calc_file_hash_out C T K rc' shash' _) as [r0 h2] eqn:Eo.
    intros [= <- <- <-]. split.
    + f_equal. destruct f as [i m]. cbn [f_mode f_inode].
      destruct (Z.land m (FMODE_READ C) =? 0) eqn:Em; [|reflexivity].
      apply Z.eqb_eq in Em. unfold set_f_mode. cbn [f_mode f_inode].
      now rewrite ldiff_lor_disjoint.
    + destruct (calc_file_hash_out_result _ _ _ _ _ _ _ _ Eo) as [-> | ->];
        [now left | now do 3 right].
Qed.






(** ** The whole file is hashed, page by page *)

Section WholeFile.

Variable C : consts.
Variable T : types.
Variable K : api T.
Variable content : list byte.
Variable f : file T.

Hypothesis page_positive : 0 < PAGE_SIZE C.
Hypothesis reads_content :
  forall f' offset,
    f_inode f' = f_inode f ->
    0 <= offset ->
    kernel_read K f' (PAGE_SIZE C) offset
    = (Z.of_nat
         (List.length (firstn (Z.to_nat (PAGE_SIZE C))
                              (skipn (Z.to_nat offset) content))),
       firstn (Z.to_nat (PAGE_SIZE C)) (skipn (Z.to_nat offset) content)).
Hypothesis update_succeeds :
  forall d bs, fst (crypto_shash_update K d bs) = 0.

Lemma skipn_min {A : Type} p (l : list A) :
  skipn (Nat.min p (List.length l)) l = skipn p l.
Proof.
  destruct (Nat.le_ge_cases p (List.length l)) as [Hle|Hge].
  - now rewrite Nat.min_l.
  - rewrite Nat.min_r by exact Hge.
    rewrite skipn_all. symmetry. now apply skipn_all2.
Qed.

Lemma read_loop_feeds f1 :
  f_inode f1 = f_inode f ->
  Z.land (f_mode f1) (FMODE_READ C) <> 0 ->
  forall fuel rest offset d,
    (List.length rest <= fuel)%nat ->
    0 <= offset ->
    skipn (Z.to_nat offset) content = rest ->
    offset + Z.of_nat (List.length rest) = Z.of_nat (List.length content) ->
    read_loop C T K fuel f1 (Z.of_nat (List.length content)) offset 0 d
    = (0, feed K d (pages_fuel fuel (Z.to_nat (PAGE_SIZE C)) rest)).
Proof.
  intros Hino Hmode. induction fuel as [|fuel IH];
    intros rest offset d Hfuel Hoff Hrest Hsum.
  - reflexivity.
  - cbn [read_loop pages_fuel].
    destruct rest as [|b rest'].
    + cbn [List.length] in Hsum.
      replace (offset <? Z.of_nat (List.length content)) with false
        by (symmetry; apply Z.ltb_ge; lia).
      reflexivity.
    + set (rest := b :: rest') in *.
      assert (Hlr : (0 < List.length rest)%nat) by (cbn; lia).
      replace (offset <? Z.of_nat (List.length content)) with true
        by (symmetry; apply Z.ltb_lt; lia).
      unfold appauth_kernel_read.
      replace (Z.land (f_mode f1) (FMODE_READ C) =? 0) with false
        by (symmetry; apply Z.eqb_neq; exact Hmode).
      rewrite (reads_content f1 offset Hino Hoff), Hrest.
      set (p := Z.to_nat (PAGE_SIZE C)).
      assert (Hp : (0 < p)%nat) by (unfold p; lia).
      set (chunk := firstn p rest).
      assert (Hlen : List.length chunk = Nat.min p (List.length rest))
        by apply length_firstn.
      replace (Z.of_nat (List.length chunk) <? 0) with false
        by (symmetry; apply Z.ltb_ge; lia).
      replace (Z.of_nat (List.length chunk) =? 0) with false
        by (symmetry; apply Z.eqb_neq; lia).
      rewrite Nat2Z.id, firstn_all.
      pose proof (update_succeeds d chunk) as Hu.
      destruct (crypto_shash_update K d chunk) as [rc' shash'] eqn:Eu.
      cbn [fst] in Hu. subst rc'. cbn [Z.eqb].
      rewrite (IH (skipn p rest) (offset + Z.of_nat (List.length chunk))
                 shash').
      * unfold feed. cbn [fold_left]. rewrite Eu. reflexivity.
      * rewrite length_skipn. lia.
      * lia.
      * replace (Z.to_nat (offset + Z.of_nat (List.length chunk)))
          with (List.length chunk + Z.to_nat offset)%nat by lia.
        rewrite <- skipn_skipn, Hrest, Hlen. apply skipn_min.
      * rewrite length_skipn. lia.
Qed.

End WholeFile.

(** X11: on a file whose size is the length of its content and whose reads
    return that content a page at a time, with a hash that does not fail,
    appauth_calc_file_hash_tfm returns 0, leaves the file's mode as it was
    and stores the digest of the running hash that was fed the pages of the
    content in order, each byte once; an empty file gives the digest of the
    empty input even when no buffer can be allocated. *)
Theorem appauth_calc_file_hash_tfm_hashes_whole_file :
  forall C T (K : api T) content f h t d0,
    0 < PAGE_SIZE C ->
    FMODE_READ C <> 0 ->
    kzalloc_succeeds K = true \/ content = [] ->
    i_size_read K (f_inode f) = Z.of_nat (List.length content) ->
    (forall f' offset,
        f_inode f' = f_inode f ->
        0 <= offset ->
        kernel_read K f' (PAGE_SIZE C) offset
        = (Z.of_nat
             (List.length (firstn (Z.to_nat (PAGE_SIZE C))
                                  (skipn (Z.to_nat offset) content))),
           firstn (Z.to_nat (PAGE_SIZE C))
                  (skipn (Z.to_nat offset) content))) ->
    crypto_shash_init K t = (0, d0) ->
    (forall d bs, fst (crypto_shash_update K d bs) = 0) ->
    (forall d, fst (crypto_shash_final K d) = 0) ->
    appauth_calc_file_hash_tfm C T K (Some f) (Some h) (Some t)
    = (0, Some f,
       Some {| algo := algo h;
               len := crypto_shash_digestsize K t;
               digest :=
                 snd (crypto_shash_final K
                        (feed K d0
                           (pages (Z.to_nat (PAGE_SIZE C)) content))) |}).
Proof.
  intros C T K content f h t d0 Hpage Hfm Hk Hsize Hread Hinit Hupd Hfin.
  unfold appauth_calc_file_hash_tfm. rewrite Hinit. cbn [Z.eqb negb].
  rewrite Hsize.
  assert (Hout : forall d,
             calc_file_hash_out C T K 0 d
               {| algo := algo h; len := crypto_shash_digestsize K t;
                  digest := digest h |}
             = (0, {| algo := algo h; len := crypto_shash_digestsize K t;
                      digest := snd (crypto_shash_final K d) |})).
  { intros d. unfold calc_file_hash_out. cbn [Z.eqb algo len].
    pose proof (Hfin d) as Hd.
    destruct (crypto_shash_final K d) as [rc dg]. cbn [fst snd] in *.
    subst rc. reflexivity. }
  destruct content as [|b content'].
  - cbn [List.length Z.of_nat Z.eqb]. rewrite Hout. reflexivity.
  - set (content := b :: content') in *.
    replace (Z.of_nat (List.length content) =? 0) with false
      by (symmetry; apply Z.eqb_neq; cbn; lia).
    destruct Hk as [Hk|Hk]; [|discriminate Hk]. rewrite Hk. cbn [negb].
    rewrite Nat2Z.id.
    set (f1 := if Z.land (f_mode f) (FMODE_READ C) =? 0
               then set_f_mode T f (Z.lor (f_mode f) (FMODE_READ C))
               else f).
    assert (Hino : f_inode f1 = f_inode f)
      by (unfold f1; destruct (_ =? _); reflexivity).
    assert (Hmode : Z.land (f_mode f1) (FMODE_READ C) <> 0).
    { unfold f1. destruct (Z.land (f_mode f) (FMODE_READ C) =? 0) eqn:Em.
      - cbn [set_f_mode f_mode]. rewrite Z.land_comm, Z.lor_comm.
        rewrite Z.land_lor_distr_r, Z.land_diag.
        apply Z.eqb_eq in Em. rewrite Z.land_comm, Em, Z.lor_0_r.
        exact Hfm.
      - apply Z.eqb_neq. exact Em. }
    rewrite (read_loop_feeds C T K content f Hpage Hread Hupd f1 Hino Hmode
               (List.length content) content 0 d0
               (Nat.le_refl _) (Z.le_refl 0) eq_refl ltac:(lia)).
    rewrite Hout. unfold pages. f_equal. f_equal. f_equal.
    unfold f1. destruct f as [i m]. cbn [f_mode f_inode].
    destruct (Z.land m (FMODE_READ C) =? 0) eqn:Em; [|reflexivity].
    apply Z.eqb_eq in Em. unfold set_f_mode. cbn [f_mode f_inode].
    now rewrite ldiff_lor_disjoint.
Qed.

Lemma appauth_calc_file_hash_tfm_hashes_whole_file_witness :
  appauth_calc_file_hash_tfm KernelExamples.linux KernelExamples.toy_types
    (KernelExamples.toy 0)
    (Some (Build_file KernelExamples.toy_types
             (bytes [104; 101; 108; 108; 111]) 0))
    (Some {| algo := 2; len := 0; digest := [] |}) (Some "sha1"%string)
  = (0,
     Some (Build_file KernelExamples.toy_types
             (bytes [104; 101; 108; 108; 111]) 0),
     Some {| algo := 2;
             len := 20;
             digest :=
               snd (crypto_shash_final (KernelExamples.toy 0)
                      (feed (KernelExamples.toy 0) ("sha1"%string, [])
                         (pages 4096
                                (bytes [104; 101; 108; 108; 111])))) |}).
Proof.
  apply (appauth_calc_file_hash_tfm_hashes_whole_file KernelExamples.linux
           KernelExamples.toy_types (KernelExamples.toy 0)
           (bytes [104; 101; 108; 108; 111])
           (Build_file KernelExamples.toy_types
              (bytes [104; 101; 108; 108; 111]) 0)
           {| algo := 2; len := 0; digest := [] |} "sha1"%string
           ("sha1"%string, [])).
  - reflexivity.
  - discriminate.
  - left. reflexivity.
  - reflexivity.
  - intros f' offset Hino _. cbn in Hino. cbn. rewrite Hino. reflexivity.
  - reflexivity.
  - reflexivity.
  - reflexivity.
Defined.

(** ** The verdict of compute_file_hash *)

Lemma process_file_result C T (K : api T) file hash r h :
  process_file C T K file hash = (r, h) -> hash_result C r.
Proof.
  unfold process_file, appauth_calc_file_shash.
  destruct (IS_ERR (appauth_alloc_tfm C T K (algo hash))).
  - intros [= <- <-]. now do 3 right.
  - destruct (appauth_calc_file_hash_tfm C T K _ _ _) as [[r0 f0] h0] eqn:E.
    intros [= <- <-].
    exact (proj2 (calc_file_hash_tfm_shape _ _ _ _ _ _ _ _ _ E)).
Qed.

Lemma bytes_eqb_eq a b : bytes_eqb a b = true -> a = b.
Proof.
  unfold bytes_eqb. destruct (list_eq_dec _ a b); [auto | discriminate].
Qed.

(** X12: compute_file_hash returns only 0, -EBADF, -EFAULT, -ENOMEM or
    -HASH_FAILURE.  With these error numbers positive, it returns 0 only if
    the file could be opened, process_file returned 0 for the algorithm
    convert_hash_id gives, and the hash_digest_size bytes recorded in the
    blob at [digest] are equal to the first bytes of the computed digest. *)
Theorem compute_file_hash_verdict :
  forall C T (K : api T) M filename digest id r,
    compute_file_hash C T K M filename digest id = Ok r ->
    (r = - EBADF C \/ hash_result C r)
    /\ (0 < EBADF C -> 0 < EFAULT C -> 0 < ENOMEM C -> 0 < HASH_FAILURE C ->
        r = 0 ->
        exists file h,
          filp_open K filename = KPtr file
          /\ process_file C T K file
               {| algo := convert_hash_id C id; len := 0; digest := [] |}
             = (0, h)
          /\ let n := Z.to_nat (hash_digest_size K (algo h)) in
             (digest = None /\ n = 0%nat)
             \/ exists d,
                 digest = Some d
                 /\ load_bytes M d n = Ok (firstn n (Kernel.digest h))).
Proof.
  intros C T K M filename digest id r. unfold compute_file_hash.
  destruct (filp_open K filename) as [|err|file] eqn:Eo; cbn [IS_ERR target].
  - discriminate.
  - intros [= <-]. split; [now left|]. intros; lia.
  - destruct (process_file C T K file _) as [ret h] eqn:Ep.
    pose proof (process_file_result _ _ _ _ _ _ _ Ep) as Hr.
    destruct (ret <? 0) eqn:Hneg.
    + intros [= <-]. split; [now right|].
      intros _ _ _ _ ->. discriminate Hneg.
    + destruct digest as [d|].
      * destruct (load_bytes M d _) as [recorded|] eqn:El; cbn [bind];
          [|discriminate].
        destruct (bytes_eqb _ recorded) eqn:Eb; intros [= <-].
        -- split; [right; now left|].
           intros _ Hf Hm Hh _. apply Z.ltb_ge in Hneg.
           assert (ret = 0) as ->
             by (destruct Hr as [-> | [-> | [-> | ->]]]; lia).
           exists file, h. split; [reflexivity|]. split; [exact Ep|].
           right. exists d. split; [reflexivity|].
           apply bytes_eqb_eq in Eb. now rewrite El, Eb.
        -- split; [right; now do 3 right|]. intros; lia.
      * destruct (0 <? Z.of_nat _) eqn:Hn; [discriminate|].
        intros [= <-]. split; [right; now left|].
        intros _ Hf Hm Hh _. apply Z.ltb_ge in Hneg.
        assert (ret = 0) as ->
          by (destruct Hr as [-> | [-> | [-> | ->]]]; lia).
        exists file, h. split; [reflexivity|]. split; [exact Ep|].
        left. split; [reflexivity|]. apply Z.ltb_ge in Hn. lia.
Qed.

Lemma compute_file_hash_verdict_witness :
  let M := bytes ([104; 101; 108; 108; 111] ++ repeat 0 15) in
  (0 = - EBADF KernelExamples.linux \/ hash_result KernelExamples.linux 0)
  /\ (0 < EBADF KernelExamples.linux -> 0 < EFAULT KernelExamples.linux ->
      0 < ENOMEM KernelExamples.linux ->
      0 < HASH_FAILURE KernelExamples.linux ->
      0 = 0 ->
      exists file h,
        filp_open (KernelExamples.toy 0) (bytes [104; 101; 108; 108; 111])
        = KPtr file
        /\ process_file KernelExamples.linux KernelExamples.toy_types
             (KernelExamples.toy 0) file
             {| algo := convert_hash_id KernelExamples.linux 1; len := 0;
                digest := [] |}
           = (0, h)
        /\ let n :=
             Z.to_nat (hash_digest_size (KernelExamples.toy 0) (algo h)) in
           (Some 0 = None /\ n = 0%nat)
           \/ exists d,
               Some 0 = Some d
               /\ load_bytes M d n = Ok (firstn n (Kernel.digest h))).
Proof.
  intros M.
  apply (compute_file_hash_verdict KernelExamples.linux
           KernelExamples.toy_types (KernelExamples.toy 0) M
           (bytes [104; 101; 108; 108; 111]) (Some 0) 1 0).
  vm_compute. reflexivity.
Defined.

End FileHashVerifyMore.

(** * Further properties of the certificate and signature check *)

Module SignVerifyMore.
Import Mem Kernel SignVerify TrustFormat.

Lemma verify_cert_validity_zero C T (K : api T) cert :
  EFAULT C <> 0 ->
  (verify_cert_validity C T K cert = 0
   <-> valid_from cert <= getnstimeofday64 K <= valid_to cert).
Proof.
  intros Hef. unfold verify_cert_validity.
  destruct (getnstimeofday64 K <? valid_from cert) eqn:E1;
    destruct (valid_to cert <? getnstimeofday64 K) eqn:E2; cbn [orb];
    try apply Z.ltb_lt in E1; try apply Z.ltb_ge in E1;
    try apply Z.ltb_lt in E2; try apply Z.ltb_ge in E2;
    split; intros; lia.
Qed.

(* verify_manifest after the certificate was parsed and its key found. *)
Lemma verify_manifest_unfold C T (K : api T) sig cert data sig_len cert_len
      data_len x key :
  x509_cert_parse K cert cert_len = Some x ->
  pub x = Some key ->
  verify_manifest C T K sig cert data sig_len cert_len data_len
  = if negb (verify_x509_cert_against_manifest_keyring K (sig_auth_ids_1 x)
               (ATTESTATION_KEY_USAGE_BIT C) =? 0)
    then (- CERTIFICATE_FAILURE C,
          [Step_x509_cert_parse;
           Step_verify_x509_cert_against_manifest_keyring;
           Step_x509_free_certificate])
    else if negb (verify_cert_validity C T K x =? 0)
    then (- CERTIFICATE_EXPIRED C,
          [Step_x509_cert_parse;
           Step_verify_x509_cert_against_manifest_keyring;
           Step_verify_cert_validity;
           Step_x509_free_certificate])
    else if fst (manifest_digest C T K data data_len) <? 0
    then (- SIGNATURE_FAILURE C,
          [Step_x509_cert_parse;
           Step_verify_x509_cert_against_manifest_keyring;
           Step_verify_cert_validity;
           Step_calc_shash;
           Step_x509_free_certificate])
    else if negb (verify_manifest_signature C T K key
                    (snd (manifest_digest C T K data data_len)) sig sig_len
                  =? 0)
    then (- SIGNATURE_FAILURE C, all_steps)
    else (verify_cert_validity C T K x, all_steps).
Proof.
  intros Hp Hk. unfold verify_manifest, manifest_digest. rewrite Hp, Hk.
  destruct (negb (_ =? 0)); [reflexivity|].
  destruct (negb (verify_cert_validity C T K x =? 0)); [reflexivity|].
  destruct (calc_shash C T K _ data data_len) as [rc h']. cbn [fst snd].
  reflexivity.
Qed.

(** X13: with non-zero error constants, verify_manifest returns 0 exactly
    when the certificate parses, carries a public key, passes the keyring
    check, the clock is inside [valid_from, valid_to], the digest of the
    data is computed without a negative result and the signature check over
    that digest returns 0; all six steps were then taken. *)
Theorem verify_manifest_accepts_iff :
  forall C T (K : api T) sig cert data sig_len cert_len data_len,
    EFAULT C <> 0 ->
    CERTIFICATE_FAILURE C <> 0 ->
    CERTIFICATE_EXPIRED C <> 0 ->
    SIGNATURE_FAILURE C <> 0 ->
    let r := verify_manifest C T K sig cert data sig_len cert_len data_len in
    (fst r = 0
     <-> exists x key,
         x509_cert_parse K cert cert_len = Some x
         /\ pub x = Some key
         /\ verify_x509_cert_against_manifest_keyring K (sig_auth_ids_1 x)
              (ATTESTATION_KEY_USAGE_BIT C) = 0
         /\ valid_from x <= getnstimeofday64 K <= valid_to x
         /\ 0 <= fst (manifest_digest C T K data data_len)
         /\ verify_manifest_signature C T K key
              (snd (manifest_digest C T K data data_len)) sig sig_len = 0)
    /\ (fst r = 0 -> snd r = all_steps).
Proof.
  intros C T K sig cert data sig_len cert_len data_len Hef Hcf Hce Hsf r.
  subst r.
  destruct (x509_cert_parse K cert cert_len) as [x|] eqn:Hp.
  2:{ unfold verify_manifest. rewrite Hp. cbn [fst snd]. split.
      - split; [lia|]. intros (x & key & X & _). discriminate X.
      - lia. }
  destruct (pub x) as [key|] eqn:Hk.
  2:{ unfold verify_manifest. rewrite Hp, Hk. cbn [fst snd]. split.
      - split; [lia|]. intros (x' & key & X & Y & _).
        assert (x' = x) as -> by congruence. congruence.
      - lia. }
  rewrite (verify_manifest_unfold C T K sig cert data sig_len cert_len
             data_len x key Hp Hk).
  pose proof (verify_cert_validity_zero C T K x Hef) as Hv.
  destruct (verify_x509_cert_against_manifest_keyring K _ _ =? 0) eqn:Er;
    cbn [negb].
  2:{ apply Z.eqb_neq in Er. cbn [fst snd]. split.
      - split; [lia|]. intros (x' & key' & X & _ & R & _).
        assert (x' = x) as -> by congruence. contradiction.
      - lia. }
  apply Z.eqb_eq in Er.
  destruct (verify_cert_validity C T K x =? 0) eqn:Ev; cbn [negb].
  2:{ apply Z.eqb_neq in Ev. cbn [fst snd]. split.
      - split; [lia|]. intros (x' & key' & X & _ & _ & W & _).
        assert (x' = x) as -> by congruence. apply Hv in W. contradiction.
      - lia. }
  apply Z.eqb_eq in Ev.
  destruct (fst (manifest_digest C T K data data_len) <? 0) eqn:Ed.
  { apply Z.ltb_lt in Ed. cbn [fst snd]. split.
    - split; [lia|]. intros (_ & _ & _ & _ & _ & _ & D & _). lia.
    - lia. }
  apply Z.ltb_ge in Ed.
  destruct (verify_manifest_signature C T K key _ sig sig_len =? 0) eqn:Es;
    cbn [negb fst snd].
  - apply Z.eqb_eq in Es. split; [|reflexivity].
    split; [|intros _; exact Ev]. intros _. exists x, key.
    repeat split; try assumption; apply Hv; exact Ev.
  - apply Z.eqb_neq in Es. split; [|lia].
    split; [lia|]. intros (x' & key' & X & Y & _ & _ & _ & S0).
    assert (x' = x) as -> by congruence.
    assert (key' = key) as -> by congruence. contradiction.
Qed.

Lemma verify_manifest_accepts_iff_witness :
  let r := verify_manifest KernelExamples.linux KernelExamples.toy_types
             (KernelExamples.toy 150) (Some []) [] (Some []) 0 0 0 in
  fst r = 0 /\ snd r = all_steps.
Proof.
  intros r.
  pose proof (verify_manifest_accepts_iff KernelExamples.linux
                KernelExamples.toy_types (KernelExamples.toy 150)
                (Some []) [] (Some []) 0 0 0
                ltac:(discriminate) ltac:(discriminate) ltac:(discriminate)
                ltac:(discriminate)) as [Hiff Hsteps].
  assert (E : fst r = 0).
  { apply Hiff. exists KernelExamples.toy_cert, tt.
    repeat split; vm_compute; congruence. }
  split; [exact E | exact (Hsteps E)].
Defined.

(** ** Release of the certificate and the values returned *)

(** X14: verify_manifest returns 0, -CERTIFICATE_FAILURE,
    -CERTIFICATE_EXPIRED or -SIGNATURE_FAILURE and nothing else (the error
    numbers of the keyring, the hash and the signature check are not passed
    on).  When the certificate does not parse, nothing is released; when it
    parses, the run starts with the parse and ends with the release of the
    certificate, which happens exactly once, on every path. *)
Theorem verify_manifest_releases_certificate :
  forall C T (K : api T) sig cert data sig_len cert_len data_len,
    let r := verify_manifest C T K sig cert data sig_len cert_len data_len in
    trust_result C (fst r)
    /\ (x509_cert_parse K cert cert_len = None ->
        r = (- CERTIFICATE_FAILURE C, [Step_x509_cert_parse]))
    /\ (forall x,
           x509_cert_parse K cert cert_len = Some x ->
           exists steps,
             snd r
             = Step_x509_cert_parse :: steps ++ [Step_x509_free_certificate]
             /\ ~ In Step_x509_free_certificate steps
             /\ ~ In Step_x509_cert_parse steps).
Proof.
  intros C T K sig cert data sig_len cert_len data_len r. subst r.
  destruct (x509_cert_parse K cert cert_len) as [x|] eqn:Hp.
  2:{ unfold verify_manifest. rewrite Hp. cbn [fst snd].
      split; [right; now left|]. split; [reflexivity|]. discriminate. }
  destruct (pub x) as [key|] eqn:Hk.
  2:{ unfold verify_manifest. rewrite Hp, Hk. cbn [fst snd].
      split; [right; now left|]. split; [discriminate|].
      intros x' _. exists []. split; [reflexivity|]. split; intros []. }
  rewrite (verify_manifest_unfold C T K sig cert data sig_len cert_len
             data_len x key Hp Hk).
  assert (Hnot : forall steps,
             Forall (fun s => s <> Step_x509_free_certificate
                              /\ s <> Step_x509_cert_parse) steps ->
             ~ In Step_x509_free_certificate steps
             /\ ~ In Step_x509_cert_parse steps).
  { intros steps Hf. rewrite Forall_forall in Hf.
    split; intros Hin; apply Hf in Hin; destruct Hin; congruence. }
  destruct (negb (_ =? 0)); cbn [fst snd].
  { split; [right; now left|]. split; [discriminate|]. intros x' _.
    exists [Step_verify_x509_cert_against_manifest_keyring].
    split; [reflexivity|]. apply Hnot.
    repeat constructor; discriminate. }
  destruct (verify_cert_validity C T K x =? 0) eqn:Ev; cbn [negb fst snd].
  2:{ split; [do 2 right; now left|]. split; [discriminate|]. intros x' _.
      exists [Step_verify_x509_cert_against_manifest_keyring;
              Step_verify_cert_validity].
      split; [reflexivity|]. apply Hnot.
      repeat constructor; discriminate. }
  destruct (_ <? 0); cbn [fst snd].
  { split; [now do 3 right|]. split; [discriminate|]. intros x' _.
    exists [Step_verify_x509_cert_against_manifest_keyring;
            Step_verify_cert_validity; Step_calc_shash].
    split; [reflexivity|]. apply Hnot.
    repeat constructor; discriminate. }
  assert (Hall : exists steps,
             all_steps
             = Step_x509_cert_parse :: steps ++ [Step_x509_free_certificate]
             /\ ~ In Step_x509_free_certificate steps
             /\ ~ In Step_x509_cert_parse steps).
  { exists [Step_verify_x509_cert_against_manifest_keyring;
            Step_verify_cert_validity; Step_calc_shash;
            Step_verify_manifest_signature].
    split; [reflexivity|]. apply Hnot.
    repeat constructor; discriminate. }
  destruct (negb (_ =? 0)); cbn [fst snd].
  - split; [now do 3 right|]. split; [discriminate|]. intros x' _.
    exact Hall.
  - split; [left; apply Z.eqb_eq; exact Ev|]. split; [discriminate|].
    intros x' _. exact Hall.
Qed.

Lemma verify_manifest_releases_certificate_witness :
  exists steps,
    snd (verify_manifest KernelExamples.linux KernelExamples.toy_types
           (KernelExamples.toy 300) (Some []) [] (Some []) 0 0 0)
    = Step_x509_cert_parse :: steps ++ [Step_x509_free_certificate]
    /\ ~ In Step_x509_free_certificate steps
    /\ ~ In Step_x509_cert_parse steps.
Proof.
  apply (proj2 (proj2 (verify_manifest_releases_certificate
                         KernelExamples.linux KernelExamples.toy_types
                         (KernelExamples.toy 300) (Some []) [] (Some [])
                         0 0 0))
           KernelExamples.toy_cert).
  reflexivity.
Defined.

(** ** Certificates that are turned down *)

(** X15: a certificate without a public key is turned down with
    -CERTIFICATE_FAILURE before the keyring is consulted; a certificate the
    keyring check rejects is turned down with -CERTIFICATE_FAILURE, whatever
    the check returned, before the validity window, the digest and the
    signature are looked at.  The certificate is released in both cases. *)
Theorem verify_manifest_certificate_failure :
  forall C T (K : api T) sig cert data sig_len cert_len data_len x,
    x509_cert_parse K cert cert_len = Some x ->
    (pub x = None ->
     verify_manifest C T K sig cert data sig_len cert_len data_len
     = (- CERTIFICATE_FAILURE C,
        [Step_x509_cert_parse; Step_x509_free_certificate]))
    /\ (pub x <> None ->
        verify_x509_cert_against_manifest_keyring K (sig_auth_ids_1 x)
          (ATTESTATION_KEY_USAGE_BIT C) <> 0 ->
        verify_manifest C T K sig cert data sig_len cert_len data_len
        = (- CERTIFICATE_FAILURE C,
           [Step_x509_cert_parse;
            Step_verify_x509_cert_against_manifest_keyring;
            Step_x509_free_certificate])).
Proof.
  intros C T K sig cert data sig_len cert_len data_len x Hp. split.
  - intros Hk. unfold verify_manifest. now rewrite Hp, Hk.
  - intros Hk Hr. destruct (pub x) as [key|] eqn:Ek; [|contradiction].
    rewrite (verify_manifest_unfold C T K sig cert data sig_len cert_len
               data_len x key Hp Ek).
    apply Z.eqb_neq in Hr. now rewrite Hr.
Qed.

Lemma verify_manifest_certificate_failure_witness :
  verify_manifest KernelExamples.linux KernelExamples.toy_types
    (with_keyring (KernelExamples.toy 150) (fun _ _ => -126))
    (Some []) [] (Some []) 0 0 0
  = (- CERTIFICATE_FAILURE KernelExamples.linux,
     [Step_x509_cert_parse;
      Step_verify_x509_cert_against_manifest_keyring;
      Step_x509_free_certificate]).
Proof.
  apply (proj2 (verify_manifest_certificate_failure KernelExamples.linux
                  KernelExamples.toy_types
                  (with_keyring (KernelExamples.toy 150) (fun _ _ => -126))
                  (Some []) [] (Some []) 0 0 0 KernelExamples.toy_cert
                  eq_refl)).
  - discriminate.
  - discriminate.
Defined.

(** ** Signatures that cannot be accepted *)

Lemma manifest_digest_algo C T (K : api T) data data_len :
  algo (snd (manifest_digest C T K data data_len)) = default_sig_hash_algo C.
Proof.
  unfold manifest_digest, calc_shash, calc_hash_tfm.
  destruct data as [d|]; [|reflexivity].
  cbn [algo].
  destruct (IS_ERR _); [reflexivity|].
  destruct (target _) as [t|]; [|reflexivity].
  destruct (crypto_shash_init K t) as [rc shash].
  destruct (negb (rc =? 0)); [reflexivity|].
  destruct (crypto_shash_update K shash _) as [rc1 shash1].
  destruct (rc1 =? 0); [|reflexivity].
  destruct (crypto_shash_final K shash1) as [rc2 dg]. reflexivity.
Qed.

(** X16: with non-zero error constants, no manifest is accepted when the
    signature pointer is null, or when default_sig_hash_algo is neither
    HASH_ALGO_SHA1 nor HASH_ALGO_SHA256: verify_manifest_signature then
    returns -ENOMEM or -EINVAL without asking the public-key service, and
    verify_manifest does not return 0. *)
Theorem verify_manifest_unsupported_signature :
  forall C T (K : api T) sig cert data sig_len cert_len data_len,
    EINVAL C <> 0 ->
    ENOMEM C <> 0 ->
    CERTIFICATE_FAILURE C <> 0 ->
    CERTIFICATE_EXPIRED C <> 0 ->
    SIGNATURE_FAILURE C <> 0 ->
    sig = None
    \/ (default_sig_hash_algo C <> HASH_ALGO_SHA1 C
        /\ default_sig_hash_algo C <> HASH_ALGO_SHA256 C) ->
    (forall key,
        verify_manifest_signature C T K key
          (snd (manifest_digest C T K data data_len)) sig sig_len
        = - ENOMEM C
        \/ verify_manifest_signature C T K key
             (snd (manifest_digest C T K data data_len)) sig sig_len
           = - EINVAL C)
    /\ fst (verify_manifest C T K sig cert data sig_len cert_len data_len)
       <> 0.
Proof.
  intros C T K sig cert data sig_len cert_len data_len
         Hei Hen Hcf Hce Hsf Hcase.
  assert (Hs : forall key,
             verify_manifest_signature C T K key
               (snd (manifest_digest C T K data data_len)) sig sig_len
             = - ENOMEM C
             \/ verify_manifest_signature C T K key
                  (snd (manifest_digest C T K data data_len)) sig sig_len
                = - EINVAL C).
  { intros key. unfold verify_manifest_signature.
    rewrite manifest_digest_algo.
    destruct Hcase as [-> | [H1 H256]].
    - destruct (_ =? HASH_ALGO_SHA1 C); [now left|].
      destruct (_ =? HASH_ALGO_SHA256 C); [now left | now right].
    - apply Z.eqb_neq in H1. apply Z.eqb_neq in H256.
      rewrite H1, H256. now right. }
  split; [exact Hs|].
  destruct (x509_cert_parse K cert cert_len) as [x|] eqn:Hp.
  2:{ unfold verify_manifest. rewrite Hp. cbn [fst]. lia. }
  destruct (pub x) as [key|] eqn:Hk.
  2:{ unfold verify_manifest. rewrite Hp, Hk. cbn [fst]. lia. }
  rewrite (verify_manifest_unfold C T K sig cert data sig_len cert_len
             data_len x key Hp Hk).
  destruct (negb (_ =? 0)); cbn [fst]; [lia|].
  destruct (negb (verify_cert_validity C T K x =? 0)); cbn [fst]; [lia|].
  destruct (_ <? 0); cbn [fst]; [lia|].
  replace (verify_manifest_signature C T K key _ sig sig_len =? 0)
    with false; [cbn [negb fst]; lia|].
  symmetry. apply Z.eqb_neq. destruct (Hs key) as [-> | ->]; lia.
Qed.

Lemma verify_manifest_unsupported_signature_witness :
  (forall key,
      verify_manifest_signature KernelExamples.linux KernelExamples.toy_types
        (KernelExamples.toy 150) key
        (snd (manifest_digest KernelExamples.linux KernelExamples.toy_types
                (KernelExamples.toy 150) (Some []) 0)) None 0
      = - ENOMEM KernelExamples.linux
      \/ verify_manifest_signature KernelExamples.linux
           KernelExamples.toy_types (KernelExamples.toy 150) key
           (snd (manifest_digest KernelExamples.linux
                   KernelExamples.toy_types (KernelExamples.toy 150)
                   (Some []) 0)) None 0
         = - EINVAL KernelExamples.linux)
  /\ fst (verify_manifest KernelExamples.linux KernelExamples.toy_types
            (KernelExamples.toy 150) None [] (Some []) 0 0 0)
     <> 0.
Proof.
  apply (verify_manifest_unsupported_signature KernelExamples.linux
           KernelExamples.toy_types (KernelExamples.toy 150) None []
           (Some []) 0 0 0); try discriminate.
  left. reflexivity.
Defined.

End SignVerifyMore.

(** * Properties of the client identification *)

Module ClientProofs.
Import Mem Kernel Client.

Lemma string_length_append (a b : string) :
  String.length (a ++ b) = (String.length a + String.length b)%nat.
Proof.
  induction a as [|c a IH]; cbn [String.append String.length].
  - reflexivity.
  - now rewrite IH.
Qed.

(** X17: the manifest path built from the root, "/", the path of the
    process and ".manifest" fits, with its terminating NUL, the mrootlen
    bytes allocated for it whenever the path of the process is shorter than
    PATH_MAX + NAME_MAX, the size of the buffer d_path fills; a path of
    PATH_MAX + NAME_MAX - 1 characters uses the buffer to its last byte. *)
Theorem manifest_path_fits_mbuf :
  forall CC f_path,
    Z.of_nat (String.length f_path) < PATH_MAX CC + NAME_MAX CC ->
    Z.of_nat (String.length (manifest_path CC f_path)) + 1 <= mrootlen CC
    /\ (Z.of_nat (String.length f_path) = PATH_MAX CC + NAME_MAX CC - 1 ->
        Z.of_nat (String.length (manifest_path CC f_path)) + 1
        = mrootlen CC).
Proof.
  intros CC f_path Hlen. unfold manifest_path, mrootlen.
  rewrite !string_length_append. cbn [String.length].
  rewrite !Nat2Z.inj_add. cbn. split; lia.
Qed.

Lemma manifest_path_fits_mbuf_witness :
  Z.of_nat (String.length (manifest_path linux_client "/bin/app"%string)) + 1
  <= mrootlen linux_client
  /\ (Z.of_nat (String.length "/bin/app"%string)
      = PATH_MAX linux_client + NAME_MAX linux_client - 1 ->
      Z.of_nat (String.length (manifest_path linux_client "/bin/app"%string))
      + 1
      = mrootlen linux_client).
Proof.
  apply (manifest_path_fits_mbuf linux_client "/bin/app"%string).
  vm_compute. reflexivity.
Defined.

Example manifest_path_of_app :
  manifest_path linux_client "/bin/app"%string
  = "/etc/manifests//bin/app.manifest"%string.
Proof. reflexivity. Qed.

Lemma map_verify_error_is_client_error C CC res :
  client_error C CC (map_verify_error C CC res).
Proof.
  unfold map_verify_error, client_error.
  repeat (destruct (_ =? _); [tauto|]). tauto.
Qed.

(** X18: when keystore_calc_clientid returns a value other than 0, the
    caller's client_id buffer is exactly as it was, and the value is one of
    -EINVAL, -ENOMEM, -EFAULT, -EKEYREJECTED, -EKEYEXPIRED, -ENOENT, -EFBIG:
    the results of the manifest verification are translated, never passed
    through. *)
Theorem keystore_calc_clientid_failure :
  forall C CC E client_id client_id_size timeout caps res client_id',
    keystore_calc_clientid C CC E client_id client_id_size timeout caps
    = (res, client_id') ->
    res <> 0 ->
    client_id' = client_id /\ client_error C CC res.
Proof.
  intros C CC E client_id client_id_size timeout caps res client_id'.
  unfold keystore_calc_clientid.
  destruct client_id as [old|];
    [|intros [= <- <-] _; split; [reflexivity | now left]].
  destruct (negb (kmalloc_buf_succeeds E));
    [intros [= <- <-] _; split; [reflexivity | right; now left]|].
  destruct (CONFIG_APPLICATION_AUTH CC && negb (kmalloc_mbuf_succeeds E));
    [intros [= <- <-] N; now destruct N|].
  destruct (IS_ERR _);
    [intros [= <- <-] _; split; [reflexivity | do 2 right; now left]|].
  destruct (negb (_ =? 0)) eqn:Er.
  - intros [= <- <-] _. split; [reflexivity|].
    apply map_verify_error_is_client_error.
  - intros [= <- <-] N. apply negb_false_iff, Z.eqb_eq in Er.
    contradiction.
Qed.

Lemma keystore_calc_clientid_failure_witness :
  Some (repeat x00 32) = Some (repeat x00 32)
  /\ client_error KernelExamples.linux linux_client (-127).
Proof.
  apply (keystore_calc_clientid_failure KernelExamples.linux linux_client
           (toy_env (-3)) (Some (repeat x00 32)) 32 0 0 (-127)
           (Some (repeat x00 32))).
  - vm_compute. reflexivity.
  - discriminate.
Defined.

Lemma firstn_repeat_le {A : Type} (x : A) m n :
  (m <= n)%nat -> firstn m (repeat x n) = repeat x m.
Proof.
  revert n. induction m as [|m IH]; intros n Hle; [reflexivity|].
  destruct n as [|n]; [lia|]. cbn [repeat firstn]. f_equal.
  apply IH. lia.
Qed.

Lemma write_client_id_shape E old f_path client_id_size :
  0 <= client_id_size <= Z.of_nat (List.length old) ->
  List.length (write_client_id E old f_path client_id_size)
  = List.length old
  /\ skipn (Z.to_nat client_id_size)
          (write_client_id E old f_path client_id_size)
     = skipn (Z.to_nat client_id_size) old
  /\ exists written,
       List.length written = Z.to_nat client_id_size
       /\ firstn (Z.to_nat client_id_size)
                 (write_client_id E old f_path client_id_size)
          = written
       /\ written
          = firstn (Z.to_nat client_id_size)
              (keystore_sha256_block E f_path client_id_size
               ++ repeat x00 (Z.to_nat client_id_size)).
Proof.
  intros Hsz. unfold write_client_id.
  set (n := Z.to_nat client_id_size).
  set (h := firstn n (keystore_sha256_block E f_path client_id_size)).
  assert (Hh : (List.length h <= n)%nat) by apply firstn_le_length.
  assert (Hw : List.length (h ++ repeat x00 (n - List.length h)) = n)
    by (rewrite length_app, repeat_length; lia).
  assert (Hn : (n <= List.length old)%nat) by (unfold n; lia).
  split; [|split].
  - rewrite length_app, Hw, length_skipn. lia.
  - rewrite skipn_app, Hw, Nat.sub_diag. cbn [skipn].
    rewrite skipn_all2 by lia. reflexivity.
  - exists (h ++ repeat x00 (n - List.length h)).
    split; [exact Hw|]. split.
    + rewrite firstn_app, Hw, Nat.sub_diag. cbn [firstn].
      rewrite app_nil_r. apply firstn_all2. lia.
    + unfold h. set (k := keystore_sha256_block E f_path client_id_size).
      rewrite firstn_app. f_equal.
      rewrite length_firstn.
      destruct (Nat.le_ge_cases n (List.length k)) as [Hle|Hge].
      * rewrite Nat.min_l by exact Hle.
        replace (n - n)%nat with 0%nat by lia.
        replace (n - List.length k)%nat with 0%nat by lia.
        reflexivity.
      * rewrite Nat.min_r by exact Hge.
        symmetry. apply firstn_repeat_le. lia.
Qed.

(** X19: when keystore_calc_clientid returns 0 on a buffer of at least
    client_id_size bytes, either the client id was written in place: the
    first client_id_size bytes of the buffer are the hash of the path of the
    process (of KERNEL_CLIENTS_ID for a task without executable), cut or
    followed by zeros, the bytes behind them and the length of the buffer
    are as before, and, with application authentication configured,
    verify_manifest_file returned 0 for the manifest path of that very
    path; or authentication is configured, the buffer for the manifest path
    could not be allocated, and the client id is left unwritten. *)
Theorem keystore_calc_clientid_success :
  forall C CC E old client_id_size timeout caps client_id',
    keystore_calc_clientid C CC E (Some old) client_id_size timeout caps
    = (0, client_id') ->
    0 <= client_id_size <= Z.of_nat (List.length old) ->
    ENOMEM C <> 0 -> EFAULT C <> 0 -> EINVAL C <> 0 ->
    EKEYREJECTED CC <> 0 -> EKEYEXPIRED CC <> 0 -> ENOENT CC <> 0 ->
    EFBIG CC <> 0 ->
    (exists f_path new,
        (get_current_process_path E (PATH_MAX CC + NAME_MAX CC)
         = KPtr f_path
         \/ get_current_process_path E (PATH_MAX CC + NAME_MAX CC) = KNull
            /\ f_path = KERNEL_CLIENTS_ID)
        /\ client_id' = Some new
        /\ List.length new = List.length old
        /\ firstn (Z.to_nat client_id_size) new
           = firstn (Z.to_nat client_id_size)
               (keystore_sha256_block E f_path client_id_size
                ++ repeat x00 (Z.to_nat client_id_size))
        /\ skipn (Z.to_nat client_id_size) new
           = skipn (Z.to_nat client_id_size) old
        /\ (CONFIG_APPLICATION_AUTH CC = true ->
            verify_manifest_file E (manifest_path CC f_path) timeout caps
            = 0))
    \/ (CONFIG_APPLICATION_AUTH CC = true
        /\ kmalloc_mbuf_succeeds E = false
        /\ client_id' = Some old).
Proof.
  intros C CC E old client_id_size timeout caps client_id' Hcall Hsz.
  assert (Hwritten : forall f_path,
             client_id'
             = Some (write_client_id E old f_path client_id_size) ->
             exists new,
               client_id' = Some new
               /\ List.length new = List.length old
               /\ firstn (Z.to_nat client_id_size) new
                  = firstn (Z.to_nat client_id_size)
                      (keystore_sha256_block E f_path client_id_size
                       ++ repeat x00 (Z.to_nat client_id_size))
               /\ skipn (Z.to_nat client_id_size) new
                  = skipn (Z.to_nat client_id_size) old).
  { intros f_path ->.
    destruct (write_client_id_shape E old f_path client_id_size Hsz)
      as (Hl & Hk & w & _ & Hf & Hw).
    eexists. split; [reflexivity|]. split; [exact Hl|].
    split; [rewrite Hf; exact Hw | exact Hk]. }
  revert Hcall. unfold keystore_calc_clientid.
  destruct (negb (kmalloc_buf_succeeds E)); [intros [= X _]; intros; lia|].
  destruct (CONFIG_APPLICATION_AUTH CC) eqn:Ec; cbn [andb].
  - destruct (kmalloc_mbuf_succeeds E) eqn:Em; cbn [negb].
    + destruct (get_current_process_path E _) as [|err|p] eqn:Ep;
        cbn [IS_ERR target].
      * destruct (_ =? 0) eqn:Er; cbn [negb].
        -- intros [= X Y] _ _ _ _ _ _ _. left.
           destruct (Hwritten KERNEL_CLIENTS_ID (eq_sym Y))
             as (new & Hn & Hl & Hf & Hk).
           exists KERNEL_CLIENTS_ID, new.
           split; [right; now split|].
           repeat split; try assumption.
           intros _. apply Z.eqb_eq. exact Er.
        -- intros [= X _] ? ? ? ? ? ? ?. exfalso.
           apply Z.eqb_neq in Er. revert X. unfold map_verify_error.
           repeat (destruct (_ =? _); [lia|]). lia.
      * intros [= X _]; intros; lia.
      * destruct (_ =? 0) eqn:Er; cbn [negb].
        -- intros [= X Y] _ _ _ _ _ _ _. left.
           destruct (Hwritten p (eq_sym Y)) as (new & Hn & Hl & Hf & Hk).
           exists p, new. split; [now left|].
           repeat split; try assumption.
           intros _. apply Z.eqb_eq. exact Er.
        -- intros [= X _] ? ? ? ? ? ? ?. exfalso.
           apply Z.eqb_neq in Er. revert X. unfold map_verify_error.
           repeat (destruct (_ =? _); [lia|]). lia.
    + intros [= <-] _ _ _ _ _ _ _. right. repeat split; reflexivity.
  - destruct (get_current_process_path E _) as [|err|p] eqn:Ep;
      cbn [IS_ERR target Z.eqb negb].
    + intros [= Y] _ _ _ _ _ _ _. left.
      destruct (Hwritten KERNEL_CLIENTS_ID (eq_sym Y))
        as (new & Hn & Hl & Hf & Hk).
      exists KERNEL_CLIENTS_ID, new. split; [right; now split|].
      repeat split; try assumption. discriminate.
    + intros [= X _]; intros; lia.
    + intros [= Y] _ _ _ _ _ _ _. left.
      destruct (Hwritten p (eq_sym Y)) as (new & Hn & Hl & Hf & Hk).
      exists p, new. split; [now left|].
      repeat split; try assumption. discriminate.
Qed.

(* A buffer of 40 bytes and a client id of 32: the last 8 bytes stay. *)
Lemma keystore_calc_clientid_success_witness :
  (exists f_path new,
      (get_current_process_path (toy_env 0)
         (PATH_MAX linux_client + NAME_MAX linux_client)
       = KPtr f_path
       \/ get_current_process_path (toy_env 0)
            (PATH_MAX linux_client + NAME_MAX linux_client) = KNull
          /\ f_path = KERNEL_CLIENTS_ID)
      /\ Some (repeat x07 32 ++ repeat xff 8) = Some new
      /\ List.length new = List.length (repeat xff 40)
      /\ firstn (Z.to_nat 32) new
         = firstn (Z.to_nat 32)
             (keystore_sha256_block (toy_env 0) f_path 32
              ++ repeat x00 (Z.to_nat 32))
      /\ skipn (Z.to_nat 32) new = skipn (Z.to_nat 32) (repeat xff 40)
      /\ (CONFIG_APPLICATION_AUTH linux_client = true ->
          verify_manifest_file (toy_env 0)
            (manifest_path linux_client f_path) 0 0
          = 0))
  \/ (CONFIG_APPLICATION_AUTH linux_client = true
      /\ kmalloc_mbuf_succeeds (toy_env 0) = false
      /\ Some (repeat x07 32 ++ repeat xff 8) = Some (repeat xff 40)).
Proof.
  apply (keystore_calc_clientid_success KernelExamples.linux linux_client
           (toy_env 0) (repeat xff 40) 32 0 0
           (Some (repeat x07 32 ++ repeat xff 8))); try discriminate.
  - vm_compute. reflexivity.
  - cbn. lia.
Defined.

End ClientProofs.
